(** * The feedback board's post router

    A shallow embedding of the request handlers of the post router
    ([list], [unreadCount], [byId], [add], [setRead]), of the
    anonymisation post-processor [processFeedbackItem] and of the part
    of the relational store client these handlers call. *)

From Stdlib Require Import String List ZArith Bool Arith Lia.
From Stdlib Require Import Permutation Sorted.
Import ListNotations.

Local Open Scope string_scope.
Local Open Scope list_scope.

(** ** Relational schema *)

(** Modelled from the spec: the relational schema (the store's schema
    file is not among the sources).  The fields are the ones the router
    selects, filters or orders on.  A required relation to a user is
    held as the referenced row itself, which builds the store's
    referential integrity into the type; a timestamp is a number of
    milliseconds. *)
Module User.
Record t : Type := mk
  { id : string;
    name : option string;
    image : option string }.
End User.

Module Post.
Record t : Type := mk
  { id : string;
    title : string;
    content : string;
    contentHtml : string;
    createdAt : Z;
    updatedAt : Z;
    anonymous : bool;
    published : bool;
    hidden : bool;
    author : User.t }.

Definition authorId (p : t) : string := User.id (author p).
End Post.

Module Comment.
Record t : Type := mk
  { id : string;
    content : string;
    contentHtml : string;
    createdAt : Z;
    author : User.t;
    postId : string }.

Definition authorId (c : t) : string := User.id (author c).
End Comment.

(** The read-marker table, with the composite key (postId, userId). *)
Module ReadPosts.
Record t : Type := mk
  { user : User.t;
    postId : string;
    createdAt : Z;
    updatedAt : Z }.

Definition userId (m : t) : string := User.id (user m).
End ReadPosts.

Record Db : Type := mkDb
  { users : list User.t;
    posts : list Post.t;
    comments : list Comment.t;
    readPosts : list ReadPosts.t }.

(** ** Payloads: what a projection returns *)

Module AuthorPayload.
Record t : Type := mk
  { image : option string;
    name : option string }.
End AuthorPayload.

Module ReaderPayload.
Record t : Type := mk
  { id : string;
    name : option string }.
End ReaderPayload.

Module ReadByPayload.
Record t : Type := mk { user : ReaderPayload.t }.
End ReadByPayload.

Module CommentAuthorPayload.
Record t : Type := mk
  { id : string;
    name : option string;
    image : option string }.
End CommentAuthorPayload.

Module CommentPayload.
Record t : Type := mk
  { id : string;
    content : string;
    contentHtml : string;
    createdAt : Z;
    author : CommentAuthorPayload.t }.
End CommentPayload.

Module CountPayload.
Record t : Type := mk { comments : nat }.
End CountPayload.

(** The payload of a post projection.  [comments] is [None] when the
    projection does not select the comments (the field is absent). *)
Module PostPayload.
Record t : Type := mk
  { id : string;
    title : string;
    content : string;
    contentHtml : string;
    createdAt : Z;
    updatedAt : Z;
    anonymous : bool;
    authorId : string;
    author : AuthorPayload.t;
    readBy : list ReadByPayload.t;
    _count : CountPayload.t;
    comments : option (list CommentPayload.t) }.
End PostPayload.

(** ** Objects used as mappings

    An object is kept as the list of its own properties in the order
    of their creation: assigning to an existing key replaces the value
    where the key stands, assigning to a new key appends it.  The
    order in which the object enumerates its keys is [own_keys] below:
    the keys written like array indices first, by ascending index, and
    the other keys behind them in the order of their creation. *)
Definition JsObject (V : Type) : Type := list (string * V).

Fixpoint obj_set {V : Type} (k : string) (v : V) (o : JsObject V)
  : JsObject V :=
  match o with
  | [] => [(k, v)]
  | (k', v') :: o' =>
      if String.eqb k' k then (k', v) :: o' else (k', v') :: obj_set k v o'
  end.

Fixpoint obj_get {V : Type} (k : string) (o : JsObject V) : option V :=
  match o with
  | [] => None
  | (k', v') :: o' => if String.eqb k' k then Some v' else obj_get k o'
  end.

(** The keys in the order of their creation. *)
Definition obj_keys {V : Type} (o : JsObject V) : list string := map fst o.

Definition digit_of (c : Ascii.ascii) : option N :=
  let n := Ascii.N_of_ascii c in
  if ((48 <=? n) && (n <=? 57))%N then Some (n - 48)%N else None.

Fixpoint numeral_value (s : string) (acc : N) : option N :=
  match s with
  | EmptyString => Some acc
  | String c s' =>
      match digit_of c with
      | Some d => numeral_value s' (acc * 10 + d)%N
      | None => None
      end
  end.

(** The array index a key is written like, if any: a decimal numeral
    without a leading zero, below 2^32 - 1. *)
Definition array_index (k : string) : option N :=
  match k with
  | EmptyString => None
  | String c rest =>
      if (Ascii.N_of_ascii c =? 48)%N && negb (String.eqb rest "") then None
      else
        match numeral_value k 0 with
        | Some n => if (n <? 4294967295)%N then Some n else None
        | None => None
        end
  end.

Definition is_index (k : string) : bool :=
  match array_index k with
  | Some _ => true
  | None => false
  end.

Fixpoint insert_index (n : N) (k : string) (l : list (N * string))
  : list (N * string) :=
  match l with
  | [] => [(n, k)]
  | (m, k') :: l' =>
      if (n <=? m)%N then (n, k) :: l else (m, k') :: insert_index n k l'
  end.

(** The keys written like array indices, by ascending index. *)
Fixpoint index_keys (ks : list string) : list (N * string) :=
  match ks with
  | [] => []
  | k :: ks' =>
      match array_index k with
      | Some n => insert_index n k (index_keys ks')
      | None => index_keys ks'
      end
  end.

Definition enumeration_order (ks : list string) : list string :=
  map snd (index_keys ks) ++ filter (fun k => negb (is_index k)) ks.

(** The keys in the order in which the object enumerates them. *)
Definition own_keys {V : Type} (o : JsObject V) : list string :=
  enumeration_order (obj_keys o).

(** [keyBy collection iteratee]: every element in turn is assigned to
    the property named by its key. *)
Definition assign_by {V : Type} (iteratee : V -> string)
  (result : JsObject V) (value : V) : JsObject V :=
  obj_set (iteratee value) value result.

Definition keyBy {V : Type} (collection : list V) (iteratee : V -> string)
  : JsObject V :=
  fold_left (assign_by iteratee) collection [].

(** ** The anonymisation post-processor *)

(** What [processFeedbackItem] returns: the payload without [authorId],
    with [readBy] as a mapping. *)
Module FeedbackItem.
Record t : Type := mk
  { id : string;
    title : string;
    content : string;
    contentHtml : string;
    createdAt : Z;
    updatedAt : Z;
    anonymous : bool;
    author : AuthorPayload.t;
    readBy : JsObject ReadByPayload.t;
    _count : CountPayload.t;
    comments : option (list CommentPayload.t) }.
End FeedbackItem.

(** [s += t] on a nullable string: [null] prints as its name. *)
Definition js_append (s : option string) (t : string) : option string :=
  Some (String.append (match s with Some x => x | None => "null" end) t).

Definition set_author_name (a : AuthorPayload.t) (n : option string)
  : AuthorPayload.t :=
  AuthorPayload.mk (AuthorPayload.image a) n.

Definition set_author_image (a : AuthorPayload.t) (i : option string)
  : AuthorPayload.t :=
  AuthorPayload.mk i (AuthorPayload.name a).

Definition reader_id (m : ReadByPayload.t) : string :=
  ReaderPayload.id (ReadByPayload.user m).

Definition processFeedbackItem (t : PostPayload.t) (sessionUserId : string)
  : FeedbackItem.t :=
  let authorId := PostPayload.authorId t in
  let author := PostPayload.author t in
  let author :=
    if PostPayload.anonymous t then
      let author := set_author_name author (Some "Anonymous") in
      let author := set_author_image author None in
      if String.eqb authorId sessionUserId
      then set_author_name author (js_append (AuthorPayload.name author) " (you)")
      else author
    else author in
  FeedbackItem.mk
    (PostPayload.id t) (PostPayload.title t) (PostPayload.content t)
    (PostPayload.contentHtml t) (PostPayload.createdAt t)
    (PostPayload.updatedAt t) (PostPayload.anonymous t)
    author
    (keyBy (PostPayload.readBy t) reader_id)
    (PostPayload._count t) (PostPayload.comments t).

(** ** The store client

    The router reaches the relational store through a client library;
    the definitions below give the behaviour of the calls the router
    makes: predicates ([where]), ordering, cursor, [take], projection,
    counting, creation and upsert. *)

(** *** Predicates *)

Module ReadPostsWhereInput.
Record t : Type := mk { userId : option string }.
End ReadPostsWhereInput.

Module CommentWhereInput.
Record t : Type := mk { authorId : option string }.
End CommentWhereInput.

(** A filter on a to-many relation: [some w] asks for a related row
    matching [w], [none w] for the absence of one. *)
Inductive ListRelationFilter (W : Type) : Type :=
| some (w : W)
| none (w : W).
Arguments some {W} w.
Arguments none {W} w.

(** A predicate on posts is an object whose keys are all optional; the
    keys present are taken in conjunction, and [{}] has none. *)
Module PostWhereInput.
#[warnings="-register-all"]
Inductive t : Type := mk
  { NOT : option t;
    published : option bool;
    hidden : option bool;
    readBy : option (ListRelationFilter ReadPostsWhereInput.t);
    comments : option (ListRelationFilter CommentWhereInput.t) }.

Definition empty : t := mk None None None None None.
End PostWhereInput.

Definition opt_holds {A : Type} (o : option A) (f : A -> bool) : bool :=
  match o with
  | None => true
  | Some a => f a
  end.

Definition readPosts_matches (w : ReadPostsWhereInput.t) (m : ReadPosts.t)
  : bool :=
  opt_holds (ReadPostsWhereInput.userId w) (String.eqb (ReadPosts.userId m)).

Definition comment_matches (w : CommentWhereInput.t) (c : Comment.t) : bool :=
  opt_holds (CommentWhereInput.authorId w) (String.eqb (Comment.authorId c)).

(** The rows a post is related to. *)
Definition post_readBy (db : Db) (p : Post.t) : list ReadPosts.t :=
  filter (fun m => String.eqb (ReadPosts.postId m) (Post.id p)) (readPosts db).

Definition post_comments (db : Db) (p : Post.t) : list Comment.t :=
  filter (fun c => String.eqb (Comment.postId c) (Post.id p)) (comments db).

Definition relation_holds {W R : Type} (matches : W -> R -> bool)
  (f : ListRelationFilter W) (related : list R) : bool :=
  match f with
  | some w => existsb (matches w) related
  | none w => negb (existsb (matches w) related)
  end.

Fixpoint post_matches (db : Db) (w : PostWhereInput.t) (p : Post.t) : bool :=
  match w with
  | PostWhereInput.mk not_ published_ hidden_ readBy_ comments_ =>
      match not_ with
      | None => true
      | Some w' => negb (post_matches db w' p)
      end
      && opt_holds published_ (Bool.eqb (Post.published p))
      && opt_holds hidden_ (Bool.eqb (Post.hidden p))
      && opt_holds readBy_
           (fun f => relation_holds readPosts_matches f (post_readBy db p))
      && opt_holds comments_
           (fun f => relation_holds comment_matches f (post_comments db p))
  end.

(** *** Ordering *)

Inductive SortOrder : Type := asc | desc.

(** [precedes o a b]: key [a] may stand before key [b] in order [o]. *)
Definition precedes (o : SortOrder) (a b : Z) : bool :=
  match o with
  | asc => (a <=? b)%Z
  | desc => (b <=? a)%Z
  end.

Fixpoint insert_by {A : Type} (key : A -> Z) (o : SortOrder) (x : A)
  (l : list A) : list A :=
  match l with
  | [] => [x]
  | y :: l' =>
      if precedes o (key x) (key y) then x :: l
      else y :: insert_by key o x l'
  end.

(** Rows ordered by one key.  The store promises no order among rows
    with equal keys; the definition takes them in table order, and what
    is stated below of the code does not rest on that choice: where
    the order of such rows would matter, distinct keys are assumed. *)
Definition orderBy {A : Type} (key : A -> Z) (o : SortOrder) (l : list A)
  : list A :=
  fold_right (insert_by key o) [] l.

(** *** Projections *)

Definition select_author (u : User.t) : AuthorPayload.t :=
  AuthorPayload.mk (User.image u) (User.name u).

Definition select_readBy (m : ReadPosts.t) : ReadByPayload.t :=
  ReadByPayload.mk
    (ReaderPayload.mk (User.id (ReadPosts.user m))
                      (User.name (ReadPosts.user m))).

Definition select_comment (c : Comment.t) : CommentPayload.t :=
  CommentPayload.mk
    (Comment.id c) (Comment.content c) (Comment.contentHtml c)
    (Comment.createdAt c)
    (CommentAuthorPayload.mk (User.id (Comment.author c))
                             (User.name (Comment.author c))
                             (User.image (Comment.author c))).

(** The default projection: the scalar fields, the author's image and
    name, the read-markers by ascending update time with their user's
    id and name, and the number of comments.  No comments. *)
Definition defaultPostSelect (db : Db) (p : Post.t) : PostPayload.t :=
  PostPayload.mk
    (Post.id p) (Post.title p) (Post.content p) (Post.contentHtml p)
    (Post.createdAt p) (Post.updatedAt p) (Post.anonymous p)
    (Post.authorId p)
    (select_author (Post.author p))
    (map select_readBy (orderBy ReadPosts.updatedAt asc (post_readBy db p)))
    (CountPayload.mk (length (post_comments db p)))
    None.

Definition with_comments (t : PostPayload.t) (cs : list CommentPayload.t)
  : PostPayload.t :=
  PostPayload.mk
    (PostPayload.id t) (PostPayload.title t) (PostPayload.content t)
    (PostPayload.contentHtml t) (PostPayload.createdAt t)
    (PostPayload.updatedAt t) (PostPayload.anonymous t)
    (PostPayload.authorId t) (PostPayload.author t) (PostPayload.readBy t)
    (PostPayload._count t) (Some cs).

(** The default projection spread, plus the comments by ascending
    creation time. *)
Definition withCommentsPostSelect (db : Db) (p : Post.t) : PostPayload.t :=
  with_comments (defaultPostSelect db p)
    (map select_comment (orderBy Comment.createdAt asc (post_comments db p))).

(** *** Reads on the post table *)

Module FindManyArgs.
Record t : Type := mk
  { take : option nat;
    cursor : option string;
    orderBy_createdAt : SortOrder;
    where_ : PostWhereInput.t }.
End FindManyArgs.

Definition post_by_id (db : Db) (id : string) : option Post.t :=
  find (fun p => String.eqb (Post.id p) id) (posts db).

(** The rows from the cursor row on: the rows before the row with the
    cursor's identifier are dropped, that row is kept, and nothing is
    left when no row has the identifier. *)
Fixpoint from_cursor (id : string) (rows : list Post.t) : list Post.t :=
  match rows with
  | [] => []
  | r :: rows' =>
      if String.eqb (Post.id r) id then rows else from_cursor id rows'
  end.

(** The rows a [findMany] ranges over: the rows the predicate holds
    of, in the requested order, and, under a cursor, those of them
    from the cursor row on (the cursor row itself is included, and
    none is returned when the cursor row is not among the rows the
    predicate holds of). *)
Definition Post_candidates (db : Db) (where_ : PostWhereInput.t)
  (o : SortOrder) (cursor : option string) : list Post.t :=
  let rows := filter (post_matches db where_) (posts db) in
  let rows := orderBy Post.createdAt o rows in
  match cursor with
  | None => rows
  | Some id => from_cursor id rows
  end.

Definition Post_findMany {P : Type} (db : Db) (select : Db -> Post.t -> P)
  (args : FindManyArgs.t) : list P :=
  let rows :=
    Post_candidates db (FindManyArgs.where_ args)
      (FindManyArgs.orderBy_createdAt args) (FindManyArgs.cursor args) in
  let rows :=
    match FindManyArgs.take args with
    | None => rows
    | Some n => firstn n rows
    end in
  map (select db) rows.

Definition Post_findUnique {P : Type} (db : Db) (select : Db -> Post.t -> P)
  (id : string) : option P :=
  option_map (select db) (post_by_id db id).

Definition Post_count (db : Db) (where_ : PostWhereInput.t) : nat :=
  length (filter (post_matches db where_) (posts db)).

Definition ReadPosts_count (db : Db) (where_ : ReadPostsWhereInput.t) : nat :=
  length (filter (readPosts_matches where_) (readPosts db)).

(** *** Failures *)

Inductive StoreFailure : Type :=
| RecordNotFound
| UniqueConstraintFailed.

Inductive Error : Type :=
| TRPCError (code : string) (message : string)
| StoreError (f : StoreFailure).

Inductive Result (A : Type) : Type :=
| Ok (a : A)
| Throw (e : Error).
Arguments Ok {A} a.
Arguments Throw {A} e.

(** *** Writes *)

(** Modelled from the spec: the input of [add] (the input schemas are
    not among the sources): a title, the content in its two forms and
    an optional anonymity flag. *)
Module AddPostInput.
Record t : Type := mk
  { title : string;
    content : string;
    contentHtml : string;
    anonymous : option bool }.
End AddPostInput.

(** What the store supplies when it creates a row: the generated
    identifier, the time of the write and the columns' default
    values. *)
Module Generated.
Record t : Type := mk
  { id : string;
    now : Z;
    anonymous : bool;
    published : bool;
    hidden : bool }.
End Generated.

Definition user_by_id (db : Db) (id : string) : option User.t :=
  find (fun u => String.eqb (User.id u) id) (users db).

Definition set_posts (db : Db) (ps : list Post.t) : Db :=
  mkDb (users db) ps (comments db) (readPosts db).

Definition set_readPosts (db : Db) (ms : list ReadPosts.t) : Db :=
  mkDb (users db) (posts db) (comments db) ms.

(** [create] with the input's fields and the author connected by
    identifier; the created row is returned under the projection. *)
Definition Post_create {P : Type} (db : Db) (g : Generated.t)
  (data : AddPostInput.t) (authorId : string) (select : Db -> Post.t -> P)
  : Result (P * Db) :=
  match user_by_id db authorId with
  | None => Throw (StoreError RecordNotFound)
  | Some author =>
      match post_by_id db (Generated.id g) with
      | Some _ => Throw (StoreError UniqueConstraintFailed)
      | None =>
          let row :=
            Post.mk (Generated.id g)
              (AddPostInput.title data) (AddPostInput.content data)
              (AddPostInput.contentHtml data)
              (Generated.now g) (Generated.now g)
              (match AddPostInput.anonymous data with
               | Some b => b
               | None => Generated.anonymous g
               end)
              (Generated.published g) (Generated.hidden g)
              author in
          let db' := set_posts db (posts db ++ [row]) in
          Ok (select db' row, db')
      end
  end.

Definition readPosts_by_key (db : Db) (postId userId : string)
  : option ReadPosts.t :=
  find (fun m => String.eqb (ReadPosts.postId m) postId
                 && String.eqb (ReadPosts.userId m) userId)
       (readPosts db).

(** [upsert] on the composite key with an empty update: the row found
    is returned and nothing is written; otherwise a row is created
    with the user and the post connected by identifier. *)
Definition ReadPosts_upsert (db : Db) (now : Z) (postId userId : string)
  : Result (ReadPosts.t * Db) :=
  match readPosts_by_key db postId userId with
  | Some m => Ok (m, db)
  | None =>
      match user_by_id db userId, post_by_id db postId with
      | Some u, Some _ =>
          let m := ReadPosts.mk u postId now now in
          Ok (m, set_readPosts db (readPosts db ++ [m]))
      | _, _ => Throw (StoreError RecordNotFound)
      end
  end.

(** ** The router *)

Module Filter.
Inductive t : Type :=
| all
| draft
| unread
| replied
| repliedByMe
| unreplied
| unrepliedByMe.
End Filter.

(** Modelled from the spec: the input of [list] (the input schemas are
    not among the sources): one of the seven filters, an order, an
    optional limit and an optional cursor. *)
Module ListPostsInput.
Record t : Type := mk
  { filter : Filter.t;
    order : SortOrder;
    limit : option nat;
    cursor : option string }.
End ListPostsInput.

(** Truthiness of a string: every string but the empty one. *)
Definition truthy (s : string) : bool := negb (String.eqb s "").

(** [l.pop()]: the last element, if any, and the list without it. *)
Definition pop {A : Type} (l : list A) : option A * list A :=
  match rev l with
  | [] => (None, l)
  | x :: r => (Some x, rev r)
  end.

Module ListOutput.
Record t : Type := mk
  { items : list FeedbackItem.t;
    nextCursor : option string }.
End ListOutput.

Module UnreadCountOutput.
Record t : Type := mk
  { unreadCount : Z;
    totalCount : Z }.
End UnreadCountOutput.

Module postRouter.

Definition getFilterWhereClause (sessionUserId : string) (filter : Filter.t)
  : PostWhereInput.t :=
  match filter with
  | Filter.all => PostWhereInput.empty
  | Filter.draft =>
      PostWhereInput.mk None (Some false) None None None
  | Filter.unread =>
      PostWhereInput.mk
        (Some (PostWhereInput.mk None None None
                 (Some (some (ReadPostsWhereInput.mk (Some sessionUserId))))
                 None))
        None None None None
  | Filter.replied =>
      PostWhereInput.mk None None None None
        (Some (some (CommentWhereInput.mk None)))
  | Filter.repliedByMe =>
      PostWhereInput.mk None None None None
        (Some (some (CommentWhereInput.mk (Some sessionUserId))))
  | Filter.unreplied =>
      PostWhereInput.mk None None None None
        (Some (none (CommentWhereInput.mk None)))
  | Filter.unrepliedByMe =>
      PostWhereInput.mk None None None None
        (Some (none (CommentWhereInput.mk (Some sessionUserId))))
  end.

(** The arguments [list] hands to [findMany]. *)
Definition list_args (sessionUserId : string) (input : ListPostsInput.t)
  (limit : nat) : FindManyArgs.t :=
  FindManyArgs.mk
    (Some (limit + 1))
    (match ListPostsInput.cursor input with
     | Some c => if truthy c then Some c else None
     | None => None
     end)
    (ListPostsInput.order input)
    (getFilterWhereClause sessionUserId (ListPostsInput.filter input)).

Definition unreadCount (db : Db) (sessionUserId : string)
  : UnreadCountOutput.t :=
  let readCount :=
    ReadPosts_count db (ReadPostsWhereInput.mk (Some sessionUserId)) in
  let allVisiblePostsCount :=
    Post_count db (PostWhereInput.mk None None (Some false) None None) in
  UnreadCountOutput.mk
    (Z.of_nat allVisiblePostsCount - Z.of_nat readCount)
    (Z.of_nat allVisiblePostsCount).

Definition byId (db : Db) (sessionUserId : string) (id : string)
  : Result FeedbackItem.t :=
  match Post_findUnique db withCommentsPostSelect id with
  | None =>
      Throw (TRPCError "NOT_FOUND"
               (String.append "No post with id '" (String.append id "'")))
  | Some post => Ok (processFeedbackItem post sessionUserId)
  end.

Definition add (db : Db) (g : Generated.t) (sessionUserId : string)
  (input : AddPostInput.t) : Result (PostPayload.t * Db) :=
  Post_create db g input sessionUserId defaultPostSelect.

Definition setRead (db : Db) (now : Z) (sessionUserId : string) (id : string)
  : Result (ReadPosts.t * Db) :=
  ReadPosts_upsert db now id sessionUserId.

(** [list]: the branch of [pop] on an empty array is never taken,
    because [items] is longer than [limit] there. *)
Definition list (db : Db) (sessionUserId : string) (input : ListPostsInput.t)
  : ListOutput.t :=
  let limit :=
    match ListPostsInput.limit input with
    | Some n => n
    | None => 50
    end in
  let items :=
    Post_findMany db withCommentsPostSelect
      (list_args sessionUserId input limit) in
  let '(items, nextCursor) :=
    if Nat.ltb limit (length items) then
      match pop items with
      | (Some nextItem, items') => (items', Some (PostPayload.id nextItem))
      | (None, items') => (items', None)
      end
    else (items, None) in
  let processedItems :=
    rev (map (fun item => processFeedbackItem item sessionUserId) items) in
  ListOutput.mk processedItems nextCursor.

End postRouter.

(** ** A client paging through [list]

    The client calls [list] and, as long as the response carries a
    [nextCursor], calls it again with that cursor; it collects the
    pages.  [None] when [fuel] calls were not enough. *)
Fixpoint paginate (fuel : nat) (db : Db) (sessionUserId : string)
  (filter : Filter.t) (order : SortOrder) (limit : option nat)
  (cursor : option string) : option (list (list FeedbackItem.t)) :=
  match fuel with
  | O => None
  | S fuel' =>
      let response :=
        postRouter.list db sessionUserId
          (ListPostsInput.mk filter order limit cursor) in
      match ListOutput.nextCursor response with
      | None => Some [ListOutput.items response]
      | Some c =>
          match paginate fuel' db sessionUserId filter order limit (Some c) with
          | Some pages => Some (ListOutput.items response :: pages)
          | None => None
          end
      end
  end.

(** One fetch with neither [take] nor cursor, post-processed. *)
Definition unpaginated (db : Db) (sessionUserId : string)
  (filter : Filter.t) (order : SortOrder) : list FeedbackItem.t :=
  map (fun item => processFeedbackItem item sessionUserId)
    (Post_findMany db withCommentsPostSelect
       (FindManyArgs.mk None None order
          (postRouter.getFilterWhereClause sessionUserId filter))).

(** * Vocabulary of the properties *)

(** ** Order *)

(** [x] may stand before [y]. *)
Definition in_order {A : Type} (key : A -> Z) (o : SortOrder) (x y : A) : Prop :=
  precedes o (key x) (key y) = true.

(** ** The post-processor *)

(** A payload as [t], with another author identifier. *)
Definition with_authorId (t : PostPayload.t) (a : string) : PostPayload.t :=
  PostPayload.mk
    (PostPayload.id t) (PostPayload.title t) (PostPayload.content t)
    (PostPayload.contentHtml t) (PostPayload.createdAt t)
    (PostPayload.updatedAt t) (PostPayload.anonymous t)
    a (PostPayload.author t) (PostPayload.readBy t)
    (PostPayload._count t) (PostPayload.comments t).

(** A row as [list] and [byId] return it. *)
Definition feedback_item (db : Db) (sessionUserId : string) (p : Post.t)
  : FeedbackItem.t :=
  processFeedbackItem (withCommentsPostSelect db p) sessionUserId.

Definition mem (k : string) (l : list string) : bool :=
  existsb (String.eqb k) l.

(** The keys of a list in the order in which each occurs first. *)
Fixpoint first_occurrences_from (seen l : list string) : list string :=
  match l with
  | [] => []
  | k :: l' =>
      if mem k seen then first_occurrences_from seen l'
      else k :: first_occurrences_from (k :: seen) l'
  end.

Definition first_occurrences (l : list string) : list string :=
  first_occurrences_from [] l.

(** ** The filters

    The predicates of the specification's table, in its words. *)

Definition read_marker_exists (db : Db) (userId : string) (p : Post.t) : Prop :=
  exists m, In m (readPosts db)
            /\ ReadPosts.postId m = Post.id p
            /\ ReadPosts.userId m = userId.

Definition comment_exists (db : Db) (p : Post.t) : Prop :=
  exists c, In c (comments db) /\ Comment.postId c = Post.id p.

Definition comment_by_exists (db : Db) (userId : string) (p : Post.t) : Prop :=
  exists c, In c (comments db)
            /\ Comment.postId c = Post.id p
            /\ Comment.authorId c = userId.

Definition filter_table (db : Db) (userId : string) (f : Filter.t)
  (p : Post.t) : Prop :=
  match f with
  | Filter.all => True
  | Filter.draft => Post.published p = false
  | Filter.unread => ~ read_marker_exists db userId p
  | Filter.replied => comment_exists db p
  | Filter.repliedByMe => comment_by_exists db userId p
  | Filter.unreplied => ~ comment_exists db p
  | Filter.unrepliedByMe => ~ comment_by_exists db userId p
  end.

(** ** Counts and markers *)

(** The two counts, in the specification's words: the posts that are
    not hidden, and the read-markers of a user. *)
Definition visible_count (db : Db) : nat :=
  length (filter (fun p => negb (Post.hidden p)) (posts db)).

Definition read_count (db : Db) (userId : string) : nat :=
  length (filter (fun m => String.eqb (ReadPosts.userId m) userId)
                 (readPosts db)).

Definition marker_key (m : ReadPosts.t) : string * string :=
  (ReadPosts.postId m, ReadPosts.userId m).

Definition has_key (postId userId : string) (m : ReadPosts.t) : bool :=
  String.eqb (ReadPosts.postId m) postId
  && String.eqb (ReadPosts.userId m) userId.

(** At most one marker for each pair of a user and a post. *)
Definition markers_unique (db : Db) : Prop :=
  NoDup (map marker_key (readPosts db)).

(** The number of markers of a user on a post. *)
Definition marker_count (db : Db) (userId postId : string) : nat :=
  length (filter (has_key postId userId) (readPosts db)).

(** The states [setRead] leads to from a given one. *)
Inductive setRead_reachable (db0 : Db) : Db -> Prop :=
| reach_start : setRead_reachable db0 db0
| reach_setRead (db db' : Db) (now : Z) (userId id : string)
    (m : ReadPosts.t) :
    setRead_reachable db0 db ->
    postRouter.setRead db now userId id = Ok (m, db') ->
    setRead_reachable db0 db'.

(** ** The not-found error *)

Definition not_found (id : string) : Error :=
  TRPCError "NOT_FOUND" (String.append "No post with id '" (String.append id "'")).

(** ** Pages *)

(** The limit of a call: 50 when the input has none. *)
Definition effective_limit (input : ListPostsInput.t) : nat :=
  match ListPostsInput.limit input with
  | Some n => n
  | None => 50
  end.

(** The rows a call of [list] ranges over: those its [findMany] would
    return without [take]. *)
Definition list_rows (db : Db) (sessionUserId : string)
  (input : ListPostsInput.t) : list Post.t :=
  Post_candidates db
    (postRouter.getFilterWhereClause sessionUserId (ListPostsInput.filter input))
    (ListPostsInput.order input)
    (FindManyArgs.cursor
       (postRouter.list_args sessionUserId input (effective_limit input))).

(** All the rows of a filter, in order. *)
Definition filter_rows (db : Db) (sessionUserId : string) (f : Filter.t)
  (o : SortOrder) : list Post.t :=
  orderBy Post.createdAt o
    (filter (post_matches db (postRouter.getFilterWhereClause sessionUserId f))
            (posts db)).

(** What [list] fetches. *)
Definition list_fetched (db : Db) (sessionUserId : string)
  (input : ListPostsInput.t) : list PostPayload.t :=
  Post_findMany db withCommentsPostSelect
    (postRouter.list_args sessionUserId input (effective_limit input)).

(** ** Sample stores *)

Definition example_reader : User.t := User.mk "u2" (Some "Bob") None.
Definition example_author : User.t :=
  User.mk "u1" (Some "Ann") (Some "ann.png").

Definition example_payload (anonymous : bool) : PostPayload.t :=
  PostPayload.mk "p1" "T" "C" "<p>C</p>" 1 2 anonymous "u1"
    (AuthorPayload.mk (Some "ann.png") (Some "Ann"))
    [ReadByPayload.mk (ReaderPayload.mk "u2" (Some "Bob"));
     ReadByPayload.mk (ReaderPayload.mk "u1" (Some "Ann"))]
    (CountPayload.mk 1)
    (Some [CommentPayload.mk "c1" "R" "<p>R</p>" 3
             (CommentAuthorPayload.mk "u2" (Some "Bob") None)]).

(** A store with three posts, [A] read by the user [u2], [B] and [C]
    not. *)
Definition example_post (id : string) (t : Z) (anonymous hidden : bool)
  : Post.t :=
  Post.mk id "T" "C" "<p>C</p>" t t anonymous true hidden example_author.

Definition example_db : Db :=
  mkDb [example_author; example_reader]
       [example_post "A" 1 true false; example_post "B" 2 false false;
        example_post "C" 3 false false]
       []
       [ReadPosts.mk example_reader "A" 5 5].

(** A store whose only post is hidden. *)
Definition hidden_db : Db :=
  mkDb [example_reader] [example_post "H" 1 false true] [] [].

(** * Vocabulary of the further properties *)

(** What a viewer is shown of the author of a post: the placeholder,
    marked for the author's own eyes, when the post is anonymous, and
    the author's image and name otherwise. *)
Definition shown_author (p : Post.t) (viewerId : string) : AuthorPayload.t :=
  if Post.anonymous p then
    AuthorPayload.mk None
      (Some (if String.eqb (Post.authorId p) viewerId
             then "Anonymous (you)" else "Anonymous"))
  else
    AuthorPayload.mk (User.image (Post.author p)) (User.name (Post.author p)).

(** The row [create] writes for an input, an author and what the
    store supplies. *)
Definition created_row (g : Generated.t) (data : AddPostInput.t)
  (author : User.t) : Post.t :=
  Post.mk (Generated.id g)
    (AddPostInput.title data) (AddPostInput.content data)
    (AddPostInput.contentHtml data)
    (Generated.now g) (Generated.now g)
    (match AddPostInput.anonymous data with
     | Some b => b
     | None => Generated.anonymous g
     end)
    (Generated.published g) (Generated.hidden g)
    author.

Definition example_generated : Generated.t :=
  Generated.mk "N" 9 false true false.

Definition example_input : AddPostInput.t :=
  AddPostInput.mk "T" "C" "<p>C</p>" (Some true).

(** A payload whose read-markers name the user [u2] twice, under two
    names. *)
Definition twice_read_payload : PostPayload.t :=
  PostPayload.mk "p1" "T" "C" "<p>C</p>" 1 2 false "u1"
    (AuthorPayload.mk (Some "ann.png") (Some "Ann"))
    [ReadByPayload.mk (ReaderPayload.mk "u2" (Some "Bob"));
     ReadByPayload.mk (ReaderPayload.mk "u1" (Some "Ann"));
     ReadByPayload.mk (ReaderPayload.mk "u2" (Some "Robert"))]
    (CountPayload.mk 0)
    (Some []).

(** * The dashboard's sidebar

    The component reads the current path from the router and renders
    a sidebar of two items inside a box; an element is kept as the
    data it is made of. *)

Module Icon.
Inductive t : Type :=
| BiMessageSquareEdit (fontSize : string)
| BiCog (fontSize : string).
End Icon.

(** What an item is rendered as. *)
Inductive ItemComponent : Type := Link.

Module SidebarItemProps.
Record t : Type := mk
  { isActive : bool;
    as_ : ItemComponent;
    href : string }.
End SidebarItemProps.

Module SidebarItem.
Record t : Type := mk
  { label : string;
    icon : Icon.t;
    props : SidebarItemProps.t }.
End SidebarItem.

Inductive Element : Type :=
| Flex (minW : string) (child : Element)
| Sidebar (items : list SidebarItem.t).

Definition DashSidebar (pathname : string) : Element :=
  Flex "13.5rem"
    (Sidebar
       [SidebarItem.mk "Feedback" (Icon.BiMessageSquareEdit "1.5rem")
          (SidebarItemProps.mk (String.eqb pathname "/") Link "/");
        SidebarItem.mk "Settings" (Icon.BiCog "1.5rem")
          (SidebarItemProps.mk (String.eqb pathname "/settings") Link
             "/settings")]).

(** The items of the sidebar an element holds. *)
Fixpoint sidebar_items (e : Element) : list SidebarItem.t :=
  match e with
  | Flex _ child => sidebar_items child
  | Sidebar items => items
  end.

Definition item_active (item : SidebarItem.t) : bool :=
  SidebarItemProps.isActive (SidebarItem.props item).

(** A payload whose read-markers carry the identifiers [10], [b] and
    [9], in this order. *)
Definition index_ids_payload : PostPayload.t :=
  PostPayload.mk "p1" "T" "C" "<p>C</p>" 1 2 false "u1"
    (AuthorPayload.mk (Some "ann.png") (Some "Ann"))
    [ReadByPayload.mk (ReaderPayload.mk "10" (Some "Ten"));
     ReadByPayload.mk (ReaderPayload.mk "b" (Some "Bea"));
     ReadByPayload.mk (ReaderPayload.mk "9" (Some "Nine"))]
    (CountPayload.mk 0)
    (Some []).

(** A key that is not written like an array index. *)
Definition plain_key (k : string) : bool := negb (is_index k).

(** The number of rows left for a call of [list], counted on the table
    without regard to any order: the rows that pass the filter, and
    under a cursor those of them whose creation time is not before
    that of the row with the cursor's identifier, none when no row
    that passes the filter has that identifier. *)
Definition rows_left (db : Db) (sessionUserId : string)
  (input : ListPostsInput.t) : nat :=
  let passing :=
    filter (post_matches db
              (postRouter.getFilterWhereClause sessionUserId
                 (ListPostsInput.filter input)))
           (posts db) in
  match ListPostsInput.cursor input with
  | None => length passing
  | Some c =>
      if String.eqb c "" then length passing
      else
        match find (fun p => String.eqb (Post.id p) c) passing with
        | None => 0
        | Some r =>
            length
              (filter (fun p => precedes (ListPostsInput.order input)
                                  (Post.createdAt r) (Post.createdAt p))
                      passing)
        end
  end.

(** The comment rows of a post. *)
Definition comments_of (db : Db) (postId : string) : list Comment.t :=
  filter (fun c => String.eqb (Comment.postId c) postId) (comments db).

(** The sample store with two comments on [A], the later one first in
    the table, and one on [B]. *)
Definition commented_db : Db :=
  mkDb (users example_db) (posts example_db)
       [Comment.mk "c2" "R2" "<p>R2</p>" 7 example_reader "A";
        Comment.mk "c3" "R3" "<p>R3</p>" 8 example_author "B";
        Comment.mk "c1" "R1" "<p>R1</p>" 6 example_author "A"]
       (readPosts example_db).

(** * Properties *)

(** ** Lists *)

Lemma find_over_app {A : Type} (f : A -> bool) (l l' : list A) :
  find f (l ++ l')
  = match find f l with
    | Some x => Some x
    | None => find f l'
    end.
Proof.
  induction l as [ | x l IH]; cbn.
  - reflexivity.
  - now destruct (f x).
Qed.

Lemma find_is_some {A : Type} (f : A -> bool) (l : list A) (x : A) :
  In x l -> f x = true -> exists y, find f l = Some y.
Proof.
  intros Hin Hf. destruct (find f l) as [y | ] eqn:E.
  - now exists y.
  - exfalso. pose proof (find_none f l E x Hin). congruence.
Qed.

Lemma find_NoDup_key {A : Type} (key : A -> string) (l : list A) (x : A) :
  NoDup (map key l) -> In x l ->
  find (fun y => String.eqb (key y) (key x)) l = Some x.
Proof.
  induction l as [ | y l IH]; cbn; intros Hnd Hin.
  - contradiction.
  - inversion Hnd as [ | ? ? Hy Hl]; subst.
    destruct Hin as [-> | Hin].
    + now rewrite String.eqb_refl.
    + destruct (String.eqb (key y) (key x)) eqn:E.
      * apply String.eqb_eq in E. exfalso. apply Hy. rewrite E.
        now apply in_map.
      * now apply IH.
Qed.

Lemma filter_all_false {A : Type} (f : A -> bool) (l : list A) :
  (forall x, In x l -> f x = false) -> filter f l = [].
Proof.
  induction l as [ | x l IH]; cbn; intros H; [reflexivity | ].
  rewrite (H x) by now left. apply IH. intros y Hy. apply H. now right.
Qed.

Lemma filter_all_true {A : Type} (f : A -> bool) (l : list A) :
  (forall x, In x l -> f x = true) -> filter f l = l.
Proof.
  induction l as [ | x l IH]; cbn; intros H; [reflexivity | ].
  rewrite (H x) by now left. f_equal. apply IH. intros y Hy. apply H. now right.
Qed.

Lemma NoDup_map_filter {A B : Type} (key : A -> B) (f : A -> bool)
  (l : list A) :
  NoDup (map key l) -> NoDup (map key (filter f l)).
Proof.
  induction l as [ | x l IH]; cbn; intros H; [constructor | ].
  inversion H as [ | ? ? Hx Hl]; subst.
  destruct (f x); [ | now apply IH]. cbn. constructor; [ | now apply IH].
  rewrite in_map_iff in *. intros (y & Hy & Hin). apply Hx.
  exists y. split; [exact Hy | ]. apply filter_In in Hin. tauto.
Qed.

Lemma StronglySorted_app_inv {A : Type} (R : A -> A -> Prop) (l l' : list A) :
  StronglySorted R (l ++ l') ->
  StronglySorted R l' /\ forall a b, In a l -> In b l' -> R a b.
Proof.
  induction l as [ | x l IH]; cbn; intros H.
  - split; [exact H | intros a b []].
  - inversion H as [ | ? ? Hl Hx]; subst.
    destruct (IH Hl) as [Hs Hab]. split; [exact Hs | ].
    intros a b [-> | Ha] Hb.
    + rewrite Forall_forall in Hx. apply Hx, in_or_app. now right.
    + now apply Hab.
Qed.

Lemma pop_snoc {A : Type} (l : list A) (x : A) : pop (l ++ [x]) = (Some x, l).
Proof.
  unfold pop. rewrite rev_app_distr. cbn. now rewrite rev_involutive.
Qed.

Lemma firstn_succ_nth {A : Type} (l : list A) (n : nat) (x : A) :
  nth_error l n = Some x -> firstn (n + 1) l = firstn n l ++ [x].
Proof.
  revert l. induction n as [ | n IH]; intros [ | y l]; cbn; try discriminate.
  - now intros [= ->].
  - intros H. f_equal. now apply IH.
Qed.

Lemma nth_error_split_at {A : Type} (l : list A) (n : nat) (x : A) :
  nth_error l n = Some x -> l = firstn n l ++ x :: skipn (S n) l.
Proof.
  revert l. induction n as [ | n IH]; intros [ | y l]; cbn; try discriminate.
  - now intros [= ->].
  - intros H. f_equal. now apply IH.
Qed.

Lemma concat_rev_pages {A : Type} (pages : list (list A)) :
  Permutation (concat pages) (concat (map (@rev A) pages)).
Proof.
  induction pages as [ | pg pages IH]; cbn.
  - reflexivity.
  - apply Permutation_app; [apply Permutation_rev | exact IH].
Qed.

(** ** The anonymisation post-processor *)

(** C1: on a payload with [anonymous = true], the returned author's
    image is null and the returned name is ['Anonymous'] when the viewer
    is not the author, and ['Anonymous (you)'] when the author's
    identifier is the viewer's. *)
Theorem processFeedbackItem_anonymous :
  forall (t : PostPayload.t) (sessionUserId : string),
    PostPayload.anonymous t = true ->
    (PostPayload.authorId t <> sessionUserId ->
     FeedbackItem.author (processFeedbackItem t sessionUserId)
     = AuthorPayload.mk None (Some "Anonymous"))
    /\ (PostPayload.authorId t = sessionUserId ->
        FeedbackItem.author (processFeedbackItem t sessionUserId)
        = AuthorPayload.mk None (Some "Anonymous (you)")).
Proof.
  intros t u Hanon.
  unfold processFeedbackItem; rewrite Hanon; cbn.
  split; intros Hid.
  - apply String.eqb_neq in Hid. rewrite Hid. reflexivity.
  - apply String.eqb_eq in Hid. rewrite Hid. reflexivity.
Qed.

Lemma processFeedbackItem_anonymous_witness :
  PostPayload.anonymous (example_payload true) = true
  /\ FeedbackItem.author (processFeedbackItem (example_payload true) "u2")
     = AuthorPayload.mk None (Some "Anonymous")
  /\ FeedbackItem.author (processFeedbackItem (example_payload true) "u1")
     = AuthorPayload.mk None (Some "Anonymous (you)").
Proof.
  split; [reflexivity | split].
  - apply (processFeedbackItem_anonymous (example_payload true) "u2");
      [reflexivity | discriminate].
  - apply (processFeedbackItem_anonymous (example_payload true) "u1");
      reflexivity.
Defined.

(** C5: the record returned by [processFeedbackItem] has no author
    identifier: its type has no such field, and it is the same for any
    two author identifiers that compare alike with the viewer's.  The
    fields other than the author and [readBy] come back unchanged, the
    comments included, and so does the author of a post that is not
    anonymous. *)
Theorem processFeedbackItem_frame :
  forall (t : PostPayload.t) (sessionUserId : string),
    let r := processFeedbackItem t sessionUserId in
    FeedbackItem.id r = PostPayload.id t
    /\ FeedbackItem.title r = PostPayload.title t
    /\ FeedbackItem.content r = PostPayload.content t
    /\ FeedbackItem.contentHtml r = PostPayload.contentHtml t
    /\ FeedbackItem.createdAt r = PostPayload.createdAt t
    /\ FeedbackItem.updatedAt r = PostPayload.updatedAt t
    /\ FeedbackItem.anonymous r = PostPayload.anonymous t
    /\ FeedbackItem._count r = PostPayload._count t
    /\ FeedbackItem.comments r = PostPayload.comments t
    /\ (PostPayload.anonymous t = false ->
        FeedbackItem.author r = PostPayload.author t)
    /\ (forall a : string,
          String.eqb a sessionUserId
          = String.eqb (PostPayload.authorId t) sessionUserId ->
          processFeedbackItem (with_authorId t a) sessionUserId = r)
    /\ (forall a : string,
          PostPayload.anonymous t = false ->
          processFeedbackItem (with_authorId t a) sessionUserId = r).
Proof.
  intros t u r; subst r.
  repeat (split; [reflexivity | ]).
  split; [ | split].
  - intros Hanon. unfold processFeedbackItem. rewrite Hanon. reflexivity.
  - intros a Ha. unfold processFeedbackItem, with_authorId; cbn.
    rewrite Ha. reflexivity.
  - intros a Hanon. unfold processFeedbackItem, with_authorId; cbn.
    rewrite Hanon. reflexivity.
Qed.

Lemma processFeedbackItem_frame_witness :
  FeedbackItem.comments (processFeedbackItem (example_payload true) "u2")
  = PostPayload.comments (example_payload true)
  /\ FeedbackItem.author (processFeedbackItem (example_payload false) "u2")
     = AuthorPayload.mk (Some "ann.png") (Some "Ann")
  /\ processFeedbackItem (with_authorId (example_payload true) "u3") "u2"
     = processFeedbackItem (example_payload true) "u2".
Proof.
  split; [ | split].
  - apply (processFeedbackItem_frame (example_payload true) "u2").
  - apply (processFeedbackItem_frame (example_payload false) "u2").
    reflexivity.
  - destruct (processFeedbackItem_frame (example_payload true) "u2")
      as (_ & _ & _ & _ & _ & _ & _ & _ & _ & _ & H & _).
    apply H. reflexivity.
Defined.

(** ** Ordering *)

Section Ordering.
Context {A : Type} (key : A -> Z) (o : SortOrder).

Lemma precedes_total (a b : Z) :
  precedes o a b = false -> precedes o b a = true.
Proof. destruct o; cbn; lia. Qed.

Lemma precedes_trans (a b c : Z) :
  precedes o a b = true -> precedes o b c = true -> precedes o a c = true.
Proof. destruct o; cbn; lia. Qed.

Lemma precedes_antisym (a b : Z) :
  precedes o a b = true -> precedes o b a = true -> a = b.
Proof. destruct o; cbn; lia. Qed.

Lemma insert_by_perm (x : A) (l : list A) :
  Permutation (insert_by key o x l) (x :: l).
Proof.
  induction l as [ | y l IH]; cbn.
  - reflexivity.
  - destruct (precedes o (key x) (key y)).
    + reflexivity.
    + rewrite IH. apply perm_swap.
Qed.

Lemma orderBy_perm (l : list A) : Permutation (orderBy key o l) l.
Proof.
  induction l as [ | x l IH]; cbn.
  - reflexivity.
  - rewrite insert_by_perm. now apply perm_skip.
Qed.

Lemma insert_by_sorted (x : A) (l : list A) :
  StronglySorted (in_order key o) l ->
  StronglySorted (in_order key o) (insert_by key o x l).
Proof.
  induction 1 as [ | y l Hl IH Hy]; cbn.
  - repeat constructor.
  - destruct (precedes o (key x) (key y)) eqn:E.
    + constructor; [now constructor | ].
      constructor; [exact E | ].
      eapply Forall_impl; [ | exact Hy].
      intros z Hz. unfold in_order in *. eapply precedes_trans; eauto.
    + constructor; [exact IH | ].
      apply (Permutation_Forall (Permutation_sym (insert_by_perm x l))).
      constructor; [ | exact Hy].
      now apply precedes_total.
Qed.

Lemma orderBy_sorted (l : list A) :
  StronglySorted (in_order key o) (orderBy key o l).
Proof.
  induction l as [ | x l IH]; cbn.
  - constructor.
  - now apply insert_by_sorted.
Qed.

Lemma orderBy_In (x : A) (l : list A) : In x (orderBy key o l) <-> In x l.
Proof.
  split; apply Permutation_in;
    [apply orderBy_perm | apply Permutation_sym, orderBy_perm].
Qed.

Lemma orderBy_length (l : list A) : length (orderBy key o l) = length l.
Proof. apply Permutation_length, orderBy_perm. Qed.
End Ordering.

(** ** Re-keying *)

Section KeyBy.
Context {V : Type} (iteratee : V -> string).

Local Abbreviation step := (assign_by iteratee).

Lemma mem_In (k : string) (l : list string) : mem k l = true <-> In k l.
Proof.
  unfold mem. rewrite existsb_exists. split.
  - intros (x & Hx & E). apply String.eqb_eq in E. now subst.
  - intros H. exists k. split; [exact H | apply String.eqb_refl].
Qed.

Lemma mem_ext (l l' : list string) :
  (forall k, In k l <-> In k l') -> forall k, mem k l = mem k l'.
Proof.
  intros H k. apply eq_true_iff_eq. rewrite !mem_In. apply H.
Qed.

Lemma first_occurrences_from_ext (l seen seen' : list string) :
  (forall k, In k seen <-> In k seen') ->
  first_occurrences_from seen l = first_occurrences_from seen' l.
Proof.
  revert seen seen'.
  induction l as [ | k l IH]; intros seen seen' H; cbn.
  - reflexivity.
  - rewrite (mem_ext _ _ H k). destruct (mem k seen').
    + now apply IH.
    + f_equal. apply IH. intros k'. cbn. now rewrite H.
Qed.

Lemma obj_keys_set (k : string) (v : V) (o : JsObject V) :
  obj_keys (obj_set k v o)
  = if mem k (obj_keys o) then obj_keys o else obj_keys o ++ [k].
Proof.
  unfold obj_keys, mem.
  induction o as [ | [k' v'] o IH]; cbn.
  - reflexivity.
  - rewrite (String.eqb_sym k k').
    destruct (String.eqb k' k) eqn:E; cbn.
    + reflexivity.
    + rewrite IH. now destruct (existsb (String.eqb k) (map fst o)).
Qed.

Lemma obj_get_set (k k' : string) (v : V) (o : JsObject V) :
  obj_get k' (obj_set k v o)
  = if String.eqb k k' then Some v else obj_get k' o.
Proof.
  induction o as [ | [k0 v0] o IH]; cbn.
  - reflexivity.
  - destruct (String.eqb k0 k) eqn:E; cbn.
    + apply String.eqb_eq in E. subst k0.
      now destruct (String.eqb k k').
    + rewrite IH. destruct (String.eqb k0 k') eqn:E'; [ | reflexivity].
      apply String.eqb_eq in E'. subst k0.
      rewrite String.eqb_sym in E. now rewrite E.
Qed.

Lemma fold_step_keys (l : list V) (o : JsObject V) :
  obj_keys (fold_left step l o)
  = obj_keys o ++ first_occurrences_from (obj_keys o) (map iteratee l).
Proof.
  revert o. induction l as [ | x l IH]; intros o.
  - cbn. now rewrite app_nil_r.
  - change (fold_left step (x :: l) o) with (fold_left step l (step o x)).
    rewrite IH. unfold assign_by. rewrite obj_keys_set.
    cbn [map first_occurrences_from].
    destruct (mem (iteratee x) (obj_keys o)); [reflexivity | ].
    rewrite <- app_assoc. cbn [app]. do 2 f_equal.
    apply first_occurrences_from_ext. intros k.
    rewrite in_app_iff. cbn. tauto.
Qed.

Lemma fold_step_get (k : string) (l : list V) (o : JsObject V) :
  obj_get k (fold_left step l o)
  = match find (fun x => String.eqb (iteratee x) k) (rev l) with
    | Some x => Some x
    | None => obj_get k o
    end.
Proof.
  revert o. induction l as [ | x l IH]; intros o.
  - reflexivity.
  - change (fold_left step (x :: l) o) with (fold_left step l (step o x)).
    rewrite IH. unfold assign_by. rewrite obj_get_set.
    cbn [rev]. rewrite find_over_app.
    destruct (find _ (rev l)); [reflexivity | ]. cbn.
    now destruct (String.eqb (iteratee x) k).
Qed.

Lemma keyBy_keys (l : list V) :
  obj_keys (keyBy l iteratee) = first_occurrences (map iteratee l).
Proof. apply (fold_step_keys l []). Qed.

Lemma keyBy_get (k : string) (l : list V) :
  obj_get k (keyBy l iteratee)
  = find (fun x => String.eqb (iteratee x) k) (rev l).
Proof.
  unfold keyBy. rewrite fold_step_get.
  now destruct (find _ (rev l)).
Qed.
End KeyBy.

Lemma first_occurrences_from_In (k : string) (l seen : list string) :
  In k (first_occurrences_from seen l) <-> In k l /\ ~ In k seen.
Proof.
  revert seen. induction l as [ | x l IH]; intros seen; cbn.
  - tauto.
  - destruct (mem x seen) eqn:E.
    + apply mem_In in E. rewrite IH. split.
      * tauto.
      * intros [[-> | H] Hn]; [contradiction | tauto].
    + assert (Hx : ~ In x seen)
        by (intros H; apply mem_In in H; congruence).
      cbn. rewrite IH. cbn. split.
      * intros [-> | [H Hn]]; [tauto | ]. split; [tauto | ].
        intros Hs. apply Hn. now right.
      * intros [[-> | H] Hn]; [now left | ].
        destruct (string_dec x k) as [-> | Hne]; [now left | right].
        split; [exact H | ]. intros [-> | Hs]; tauto.
Qed.

Lemma first_occurrences_from_NoDup (l seen : list string) :
  NoDup (first_occurrences_from seen l).
Proof.
  revert seen. induction l as [ | x l IH]; intros seen; cbn.
  - constructor.
  - destruct (mem x seen); [apply IH | ].
    constructor; [ | apply IH].
    rewrite first_occurrences_from_In. cbn. tauto.
Qed.

Lemma first_occurrences_from_NoDup_id (l seen : list string) :
  NoDup l -> (forall k, In k l -> ~ In k seen) ->
  first_occurrences_from seen l = l.
Proof.
  revert seen. induction l as [ | x l IH]; intros seen Hnd Hseen; cbn.
  - reflexivity.
  - inversion Hnd as [ | ? ? Hx Hl]; subst.
    destruct (mem x seen) eqn:E.
    + apply mem_In in E. exfalso. apply (Hseen x); [now left | exact E].
    + f_equal. apply IH; [exact Hl | ].
      intros k Hk [-> | Hs]; [contradiction | ].
      apply (Hseen k); [now right | exact Hs].
Qed.

Lemma insert_index_In (n : N) (k : string) (l : list (N * string))
  (x : N * string) :
  In x (insert_index n k l) <-> x = (n, k) \/ In x l.
Proof.
  induction l as [ | [m k'] l IH]; cbn.
  - intuition congruence.
  - destruct (n <=? m)%N; cbn; [intuition congruence | ].
    rewrite IH. intuition congruence.
Qed.

Lemma index_keys_index (ks : list string) (n : N) (k : string) :
  In (n, k) (index_keys ks) -> array_index k = Some n.
Proof.
  induction ks as [ | k0 ks IH]; cbn; [intros [] | ].
  destruct (array_index k0) as [n0 | ] eqn:E; [ | exact IH].
  rewrite insert_index_In. intros [[= -> ->] | H]; [exact E | now apply IH].
Qed.

Lemma index_keys_In (ks : list string) (n : N) (k : string) :
  In (n, k) (index_keys ks) <-> In k ks /\ array_index k = Some n.
Proof.
  split; [ | intros [Hk Hn]].
  - intros H. split; [ | now apply index_keys_index in H].
    induction ks as [ | k0 ks IH]; cbn in *; [contradiction | ].
    destruct (array_index k0) as [n0 | ]; [ | right; now apply IH].
    apply insert_index_In in H.
    destruct H as [[= _ ->] | H]; [now left | right; now apply IH].
  - induction ks as [ | k0 ks IH]; cbn in *; [contradiction | ].
    destruct Hk as [-> | Hk].
    + rewrite Hn. apply insert_index_In. now left.
    + destruct (array_index k0) as [n0 | ]; [ | now apply IH].
      apply insert_index_In. right. now apply IH.
Qed.

Lemma insert_index_sorted (n : N) (k : string) (l : list (N * string)) :
  StronglySorted (fun a b => (fst a <= fst b)%N) l ->
  StronglySorted (fun a b => (fst a <= fst b)%N) (insert_index n k l).
Proof.
  induction 1 as [ | [m k'] l Hl IH Hm]; cbn.
  - repeat constructor.
  - destruct (n <=? m)%N eqn:E.
    + apply N.leb_le in E. constructor; [now constructor | ].
      constructor; [exact E | ].
      eapply Forall_impl; [ | exact Hm]. cbn. intros a Ha. lia.
    + apply N.leb_gt in E. constructor; [exact IH | ].
      rewrite Forall_forall in *. intros a Ha.
      apply insert_index_In in Ha. destruct Ha as [-> | Ha]; cbn.
      * lia.
      * now apply Hm.
Qed.

Lemma index_keys_sorted (ks : list string) :
  StronglySorted (fun a b => (fst a <= fst b)%N) (index_keys ks).
Proof.
  induction ks as [ | k ks IH]; cbn; [constructor | ].
  destruct (array_index k); [now apply insert_index_sorted | exact IH].
Qed.

Lemma index_keys_none (ks : list string) :
  (forall k, In k ks -> array_index k = None) -> index_keys ks = [].
Proof.
  induction ks as [ | k ks IH]; cbn; intros H; [reflexivity | ].
  rewrite (H k) by now left. apply IH. intros k' Hk. apply H. now right.
Qed.

Lemma enumeration_order_plain (ks : list string) :
  filter plain_key (enumeration_order ks) = filter plain_key ks.
Proof.
  unfold enumeration_order. rewrite filter_app.
  rewrite filter_all_false.
  - cbn. fold plain_key. apply filter_all_true.
    intros k Hk. apply filter_In in Hk. tauto.
  - intros k Hk. apply in_map_iff in Hk. destruct Hk as ([n k'] & <- & Hin).
    apply index_keys_index in Hin. unfold plain_key, is_index. cbn.
    now rewrite Hin.
Qed.

Lemma enumeration_order_no_index (ks : list string) :
  (forall k, In k ks -> array_index k = None) -> enumeration_order ks = ks.
Proof.
  intros H. unfold enumeration_order. rewrite (index_keys_none ks H). cbn.
  apply filter_all_true. intros k Hk. unfold is_index. now rewrite (H k Hk).
Qed.

(** C9, as the code has it: [processFeedbackItem] re-keys the
    read-markers by the marking user's identifier.  The mapping
    enumerates first the identifiers written like array indices, by
    ascending index, and behind them the other identifiers in the
    order of their first occurrence in the list; so the identifiers
    that are not written like array indices keep the order of their
    first occurrence, and when none is written like one the keys are
    the identifiers of the list in that order.  Every user identifier
    of the list is a key, and its entry is an entry of that user in
    the list (the entry itself when the identifiers are distinct).
    The list comes from the store in ascending order of the markers'
    update time. *)
Theorem processFeedbackItem_readBy_keyed :
  (forall (t : PostPayload.t) (sessionUserId : string),
      let entries := PostPayload.readBy t in
      let ids := first_occurrences (map reader_id entries) in
      let m := FeedbackItem.readBy (processFeedbackItem t sessionUserId) in
      own_keys m
      = map snd (index_keys ids) ++ filter plain_key ids
      /\ StronglySorted (fun a b => (fst a <= fst b)%N) (index_keys ids)
      /\ (forall n k,
             In (n, k) (index_keys ids)
             <-> In k ids /\ array_index k = Some n)
      /\ filter plain_key (own_keys m) = filter plain_key ids
      /\ ((forall e, In e entries -> array_index (reader_id e) = None) ->
          own_keys m = ids
          /\ (NoDup (map reader_id entries) ->
              own_keys m = map reader_id entries))
      /\ (forall e, In e entries ->
            exists e', obj_get (reader_id e) m = Some e'
                       /\ In e' entries /\ reader_id e' = reader_id e)
      /\ (forall k, ~ In k (map reader_id entries) -> obj_get k m = None)
      /\ (NoDup (map reader_id entries) ->
          forall e, In e entries -> obj_get (reader_id e) m = Some e))
  /\ (forall (db : Db) (p : Post.t),
         exists ms : list ReadPosts.t,
           PostPayload.readBy (withCommentsPostSelect db p)
           = map select_readBy ms
           /\ Permutation ms (post_readBy db p)
           /\ StronglySorted
                (fun a b => (ReadPosts.updatedAt a <= ReadPosts.updatedAt b)%Z)
                ms).
Proof.
  split.
  - intros t u entries ids m. subst m.
    cbn [processFeedbackItem FeedbackItem.readBy].
    fold entries. unfold own_keys. rewrite keyBy_keys. fold ids.
    split; [reflexivity | ].
    split; [apply index_keys_sorted | ].
    split; [intros n k; apply index_keys_In | ].
    split; [apply enumeration_order_plain | ].
    split; [ | split; [ | split]].
    + intros Hplain.
      assert (Hkeys : enumeration_order ids = ids).
      { apply enumeration_order_no_index.
        intros k Hk. unfold ids, first_occurrences in Hk.
        apply first_occurrences_from_In in Hk. destruct Hk as [Hk _].
        apply in_map_iff in Hk. destruct Hk as (e & <- & He).
        now apply Hplain. }
      split; [exact Hkeys | ]. intros Hnd. rewrite Hkeys.
      unfold ids, first_occurrences.
      apply first_occurrences_from_NoDup_id; [exact Hnd | ].
      intros k _ [].
    + intros e He. rewrite keyBy_get.
      destruct (find_is_some
                  (fun x => String.eqb (reader_id x) (reader_id e))
                  (rev entries) e) as [e' He'].
      * now apply in_rev in He.
      * apply String.eqb_refl.
      * exists e'. split; [exact He' | ].
        apply find_some in He'. destruct He' as [Hin E].
        apply in_rev in Hin. apply String.eqb_eq in E. now split.
    + intros k Hk. rewrite keyBy_get.
      destruct (find _ (rev entries)) as [e | ] eqn:E; [ | reflexivity].
      apply find_some in E. destruct E as [Hin E].
      apply in_rev in Hin. apply String.eqb_eq in E.
      exfalso. apply Hk. rewrite <- E. now apply in_map.
    + intros Hnd e He. rewrite keyBy_get.
      apply find_NoDup_key.
      * rewrite map_rev. apply NoDup_rev. exact Hnd.
      * now apply in_rev in He.
  - intros db p.
    exists (orderBy ReadPosts.updatedAt asc (post_readBy db p)).
    split; [reflexivity | ]. split; [apply orderBy_perm | ].
    pose proof (orderBy_sorted ReadPosts.updatedAt asc (post_readBy db p)) as H.
    induction H as [ | a l Hl IH Ha]; constructor; [exact IH | ].
    eapply Forall_impl; [ | exact Ha].
    intros b Hb. unfold in_order in Hb. cbn in Hb. lia.
Qed.

Lemma processFeedbackItem_readBy_keyed_witness :
  own_keys (FeedbackItem.readBy (processFeedbackItem (example_payload true) "u1"))
  = ["u2"; "u1"]
  /\ obj_get "u1"
       (FeedbackItem.readBy (processFeedbackItem (example_payload true) "u1"))
     = Some (ReadByPayload.mk (ReaderPayload.mk "u1" (Some "Ann"))).
Proof.
  destruct processFeedbackItem_readBy_keyed as [H _].
  destruct (H (example_payload true) "u1")
    as (_ & _ & _ & _ & Hkeys & _ & _ & Hget).
  split.
  - apply Hkeys; [cbn; intros e [<- | [<- | []]]; reflexivity | ].
    cbn. repeat constructor; cbn; intuition discriminate.
  - apply (Hget ltac:(cbn; repeat constructor; cbn; intuition discriminate)
             (ReadByPayload.mk (ReaderPayload.mk "u1" (Some "Ann")))).
    cbn. tauto.
Defined.

(** C9, as it is stated, fails: of the identifiers [10], [b] and [9],
    which occur in this order, the mapping enumerates [9] and [10]
    first. *)
Lemma readBy_key_order_counterexample :
  own_keys (FeedbackItem.readBy (processFeedbackItem index_ids_payload "u1"))
  = ["9"; "10"; "b"]
  /\ first_occurrences (map reader_id (PostPayload.readBy index_ids_payload))
     = ["10"; "b"; "9"]
  /\ own_keys (FeedbackItem.readBy (processFeedbackItem index_ids_payload "u1"))
     <> first_occurrences
          (map reader_id (PostPayload.readBy index_ids_payload)).
Proof.
  split; [reflexivity | ]. split; [reflexivity | ]. discriminate.
Qed.

(** ** The query builder *)

Lemma readBy_some_iff (db : Db) (u : string) (p : Post.t) :
  existsb (readPosts_matches (ReadPostsWhereInput.mk (Some u)))
          (post_readBy db p) = true
  <-> read_marker_exists db u p.
Proof.
  rewrite existsb_exists. unfold post_readBy, read_marker_exists. split.
  - intros (m & Hin & Hm). apply filter_In in Hin. destruct Hin as [Hin Hp].
    apply String.eqb_eq in Hp, Hm. now exists m.
  - intros (m & Hin & Hp & Hm). exists m. split.
    + apply filter_In. split; [exact Hin | now apply String.eqb_eq].
    + now apply String.eqb_eq.
Qed.

Lemma comments_some_any_iff (db : Db) (p : Post.t) :
  existsb (comment_matches (CommentWhereInput.mk None))
          (post_comments db p) = true
  <-> comment_exists db p.
Proof.
  rewrite existsb_exists. unfold post_comments, comment_exists. split.
  - intros (c & Hin & _). apply filter_In in Hin. destruct Hin as [Hin Hp].
    apply String.eqb_eq in Hp. now exists c.
  - intros (c & Hin & Hp). exists c. split; [ | reflexivity].
    apply filter_In. split; [exact Hin | now apply String.eqb_eq].
Qed.

Lemma comments_some_by_iff (db : Db) (u : string) (p : Post.t) :
  existsb (comment_matches (CommentWhereInput.mk (Some u)))
          (post_comments db p) = true
  <-> comment_by_exists db u p.
Proof.
  rewrite existsb_exists. unfold post_comments, comment_by_exists. split.
  - intros (c & Hin & Hc). apply filter_In in Hin. destruct Hin as [Hin Hp].
    apply String.eqb_eq in Hp, Hc. now exists c.
  - intros (c & Hin & Hp & Hc). exists c. split.
    + apply filter_In. split; [exact Hin | now apply String.eqb_eq].
    + now apply String.eqb_eq.
Qed.

(** C4: for each of the seven filters, the clause of
    [getFilterWhereClause] holds of a post exactly when the predicate
    of the specification's table does; the seven filters are all there
    are, and no two of them share a clause. *)
Theorem getFilterWhereClause_table :
  (forall (db : Db) (sessionUserId : string) (f : Filter.t) (p : Post.t),
      post_matches db (postRouter.getFilterWhereClause sessionUserId f) p = true
      <-> filter_table db sessionUserId f p)
  /\ (forall f : Filter.t,
         In f [Filter.all; Filter.draft; Filter.unread; Filter.replied;
               Filter.repliedByMe; Filter.unreplied; Filter.unrepliedByMe])
  /\ (forall (sessionUserId : string) (f f' : Filter.t),
         postRouter.getFilterWhereClause sessionUserId f
         = postRouter.getFilterWhereClause sessionUserId f' ->
         f = f')
  /\ (forall sessionUserId : string,
         postRouter.getFilterWhereClause sessionUserId Filter.all
         = PostWhereInput.empty).
Proof.
  split; [ | split; [ | split]].
  - intros db u f p. destruct f; cbn.
    + tauto.
    + rewrite !andb_true_r. destruct (Post.published p); cbn; intuition congruence.
    + rewrite !andb_true_r. rewrite negb_true_iff, <- not_true_iff_false.
      now rewrite readBy_some_iff.
    + apply comments_some_any_iff.
    + apply comments_some_by_iff.
    + rewrite negb_true_iff, <- not_true_iff_false.
      now rewrite comments_some_any_iff.
    + rewrite negb_true_iff, <- not_true_iff_false.
      now rewrite comments_some_by_iff.
  - intros f. destruct f; cbn; tauto.
  - intros u f f'. destruct f, f'; cbn; intros H;
      try reflexivity; discriminate H.
  - reflexivity.
Qed.

Lemma getFilterWhereClause_table_witness :
  post_matches example_db
    (postRouter.getFilterWhereClause "u2" Filter.unread)
    (example_post "B" 2 false false) = true
  /\ post_matches example_db
       (postRouter.getFilterWhereClause "u2" Filter.unread)
       (example_post "A" 1 true false) <> true.
Proof.
  destruct getFilterWhereClause_table as (Htable & _).
  split.
  - apply Htable. cbn. intros (m & Hin & Hp & _).
    cbn in Hin. destruct Hin as [<- | []]. discriminate Hp.
  - intros H. apply Htable in H. apply H.
    exists (ReadPosts.mk example_reader "A" 5 5). cbn. tauto.
Defined.

(** ** The read-tracking counter *)

Lemma read_count_le_visible (db : Db) (u : string) :
  markers_unique db ->
  (forall m, In m (readPosts db) -> ReadPosts.userId m = u ->
             exists p, In p (posts db) /\ Post.id p = ReadPosts.postId m
                       /\ Post.hidden p = false) ->
  read_count db u <= visible_count db.
Proof.
  intros Hnd Hvis. unfold read_count, visible_count.
  set (mine := filter (fun m => String.eqb (ReadPosts.userId m) u)
                      (readPosts db)).
  set (visible := filter (fun p => negb (Post.hidden p)) (posts db)).
  rewrite <- (length_map ReadPosts.postId mine), <- (length_map Post.id visible).
  apply NoDup_incl_length.
  - apply (NoDup_map_inv (fun id => (id, u))).
    rewrite map_map.
    rewrite (map_ext_in _ marker_key).
    + now apply NoDup_map_filter.
    + intros m Hm. apply filter_In in Hm. destruct Hm as [_ Hm].
      apply String.eqb_eq in Hm. unfold marker_key. now rewrite Hm.
  - intros id Hid. apply in_map_iff in Hid. destruct Hid as (m & <- & Hm).
    apply filter_In in Hm. destruct Hm as [Hin Hu].
    apply String.eqb_eq in Hu.
    destruct (Hvis m Hin Hu) as (p & Hp & Hpid & Hh).
    rewrite <- Hpid. apply in_map, filter_In. split; [exact Hp | ].
    now rewrite Hh.
Qed.

(** C6: [unreadCount] is the number of posts that are not hidden minus
    the number of the user's read-markers on any post, [totalCount] is
    the number of posts that are not hidden, and nothing clamps the
    difference: after the user has marked a hidden post read, it is
    negative; it is not negative as long as the user's markers, one for
    a post at most, are all on posts that are not hidden. *)
Theorem unreadCount_difference :
  (forall (db : Db) (sessionUserId : string),
      UnreadCountOutput.unreadCount (postRouter.unreadCount db sessionUserId)
      = (Z.of_nat (visible_count db)
         - Z.of_nat (read_count db sessionUserId))%Z
      /\ UnreadCountOutput.totalCount (postRouter.unreadCount db sessionUserId)
         = Z.of_nat (visible_count db))
  /\ (exists (m : ReadPosts.t) (db' : Db),
         postRouter.setRead hidden_db 7 "u2" "H" = Ok (m, db')
         /\ postRouter.unreadCount db' "u2"
            = UnreadCountOutput.mk (-1) 0)
  /\ (forall (db : Db) (sessionUserId : string),
         markers_unique db ->
         (forall m, In m (readPosts db) ->
                    ReadPosts.userId m = sessionUserId ->
                    exists p, In p (posts db)
                              /\ Post.id p = ReadPosts.postId m
                              /\ Post.hidden p = false) ->
         (0 <= UnreadCountOutput.unreadCount
                 (postRouter.unreadCount db sessionUserId))%Z).
Proof.
  assert (Hcount : forall db u,
             postRouter.unreadCount db u
             = UnreadCountOutput.mk
                 (Z.of_nat (visible_count db) - Z.of_nat (read_count db u))
                 (Z.of_nat (visible_count db))).
  { intros db u.
    assert (Hv : Post_count db (PostWhereInput.mk None None (Some false)
                                                  None None)
                 = visible_count db).
    { unfold Post_count, visible_count. f_equal. apply filter_ext.
      intros p. cbn. now destruct (Post.hidden p). }
    unfold postRouter.unreadCount. now rewrite Hv. }
  split; [ | split].
  - intros db u. now rewrite Hcount.
  - eexists. eexists. split; reflexivity.
  - intros db u Hnd Hvis. rewrite Hcount. cbn.
    pose proof (read_count_le_visible db u Hnd Hvis). lia.
Qed.

Lemma unreadCount_difference_witness :
  (0 <= UnreadCountOutput.unreadCount (postRouter.unreadCount example_db "u2"))%Z.
Proof.
  apply unreadCount_difference.
  - unfold markers_unique. cbn. constructor; [intros [] | constructor].
  - cbn. intros m [<- | []] _.
    exists (example_post "A" 1 true false). cbn. tauto.
Defined.

(** ** Lookup by identifier *)

Lemma post_by_id_none (db : Db) (id : string) :
  post_by_id db id = None <-> forall p, In p (posts db) -> Post.id p <> id.
Proof.
  unfold post_by_id. split.
  - intros H p Hin E. pose proof (find_none _ _ H p Hin) as Hf.
    cbn in Hf. apply String.eqb_neq in Hf. contradiction.
  - intros H. destruct (find _ (posts db)) as [p | ] eqn:E; [ | reflexivity].
    apply find_some in E. destruct E as [Hin E].
    apply String.eqb_eq in E. now apply H in Hin.
Qed.

Lemma post_by_id_some (db : Db) (id : string) (p : Post.t) :
  post_by_id db id = Some p -> In p (posts db) /\ Post.id p = id.
Proof.
  unfold post_by_id. intros H. apply find_some in H.
  destruct H as [Hin E]. apply String.eqb_eq in E. now split.
Qed.

(** C8: [byId] throws the not-found error, whose message quotes the
    requested identifier, exactly when no post has that identifier; it
    throws nothing else; and when a post has the identifier it returns
    the with-comments projection of such a post, post-processed for the
    session user. *)
Theorem byId_not_found_iff :
  forall (db : Db) (sessionUserId id : string),
    (postRouter.byId db sessionUserId id = Throw (not_found id)
     <-> forall p, In p (posts db) -> Post.id p <> id)
    /\ (forall e, postRouter.byId db sessionUserId id = Throw e ->
                  e = not_found id)
    /\ ((exists p, In p (posts db) /\ Post.id p = id) ->
        exists p, In p (posts db) /\ Post.id p = id
                  /\ postRouter.byId db sessionUserId id
                     = Ok (processFeedbackItem (withCommentsPostSelect db p)
                                               sessionUserId)).
Proof.
  intros db u id. unfold postRouter.byId, Post_findUnique.
  destruct (post_by_id db id) as [p | ] eqn:E; cbn.
  - destruct (post_by_id_some _ _ _ E) as [Hin Hid].
    split; [ | split].
    + split; [discriminate | ]. intros H. now apply H in Hin.
    + discriminate.
    + intros _. now exists p.
  - pose proof (proj1 (post_by_id_none db id) E) as Hnone.
    split; [ | split].
    + split; [now intros _ | reflexivity].
    + now intros e [= <-].
    + intros (p & Hin & Hid). now apply Hnone in Hin.
Qed.

Lemma byId_not_found_iff_witness :
  postRouter.byId example_db "u2" "Z"
  = Throw (TRPCError "NOT_FOUND" "No post with id 'Z'")
  /\ exists p, In p (posts example_db) /\ Post.id p = "A"
               /\ postRouter.byId example_db "u2" "A"
                  = Ok (processFeedbackItem
                          (withCommentsPostSelect example_db p) "u2").
Proof.
  split.
  - apply (byId_not_found_iff example_db "u2" "Z").
    cbn. intros p [<- | [<- | [<- | []]]]; discriminate.
  - apply (byId_not_found_iff example_db "u2" "A").
    exists (example_post "A" 1 true false). cbn. tauto.
Defined.

(** ** Creation *)

Lemma user_by_id_some (db : Db) (id : string) (u : User.t) :
  user_by_id db id = Some u -> In u (users db) /\ User.id u = id.
Proof.
  unfold user_by_id. intros H. apply find_some in H.
  destruct H as [Hin E]. apply String.eqb_eq in E. now split.
Qed.

(** C10: [add] creates a post whose author is the session user and
    returns its default projection as it is: the author identifier is
    the session user's, the author's name and image are the user's own
    whatever the anonymity flag, and the record carries the number of
    comments but no comment list. *)
Theorem add_returns_default_projection :
  forall (db : Db) (g : Generated.t) (sessionUserId : string)
         (input : AddPostInput.t) (author : User.t),
    user_by_id db sessionUserId = Some author ->
    post_by_id db (Generated.id g) = None ->
    exists (row : Post.t) (db' : Db),
      postRouter.add db g sessionUserId input
      = Ok (defaultPostSelect db' row, db')
      /\ posts db' = posts db ++ [row]
      /\ Post.authorId row = sessionUserId
      /\ Post.title row = AddPostInput.title input
      /\ Post.content row = AddPostInput.content input
      /\ (forall b, AddPostInput.anonymous input = Some b ->
                    PostPayload.anonymous (defaultPostSelect db' row) = b)
      /\ PostPayload.authorId (defaultPostSelect db' row) = sessionUserId
      /\ PostPayload.author (defaultPostSelect db' row)
         = AuthorPayload.mk (User.image author) (User.name author)
      /\ PostPayload.comments (defaultPostSelect db' row) = None
      /\ PostPayload._count (defaultPostSelect db' row)
         = CountPayload.mk (length (post_comments db row)).
Proof.
  intros db g u input author Hu Hfresh.
  unfold postRouter.add, Post_create. rewrite Hu, Hfresh.
  destruct (user_by_id_some _ _ _ Hu) as [_ Hid].
  eexists. eexists. split; [reflexivity | ].
  cbn. unfold Post.authorId. cbn.
  repeat split; try assumption.
  intros b Hb. now rewrite Hb.
Qed.

Lemma add_returns_default_projection_witness :
  exists (row : Post.t) (db' : Db),
    postRouter.add example_db (Generated.mk "N" 9 false true false) "u1"
      (AddPostInput.mk "T" "C" "<p>C</p>" (Some true))
    = Ok (defaultPostSelect db' row, db')
    /\ PostPayload.anonymous (defaultPostSelect db' row) = true
    /\ PostPayload.authorId (defaultPostSelect db' row) = "u1"
    /\ PostPayload.author (defaultPostSelect db' row)
       = AuthorPayload.mk (Some "ann.png") (Some "Ann")
    /\ PostPayload.comments (defaultPostSelect db' row) = None.
Proof.
  destruct (add_returns_default_projection example_db
              (Generated.mk "N" 9 false true false) "u1"
              (AddPostInput.mk "T" "C" "<p>C</p>" (Some true))
              example_author eq_refl eq_refl)
    as (row & db' & Hadd & _ & _ & _ & _ & Hanon & Hid & Hauthor & Hc & _).
  exists row, db'. repeat split; try assumption.
  now apply Hanon.
Defined.

(** ** Read-markers *)

Lemma has_key_iff (postId userId : string) (m : ReadPosts.t) :
  has_key postId userId m = true <-> marker_key m = (postId, userId).
Proof.
  unfold has_key, marker_key. rewrite andb_true_iff, !String.eqb_eq.
  split; [intros [-> ->]; reflexivity | intros [= -> ->]; now split].
Qed.

Lemma filter_unique_key (postId userId : string) (l : list ReadPosts.t)
  (m : ReadPosts.t) :
  NoDup (map marker_key l) ->
  find (has_key postId userId) l = Some m ->
  filter (has_key postId userId) l = [m].
Proof.
  induction l as [ | x l IH]; cbn; intros Hnd Hfind; [discriminate | ].
  inversion Hnd as [ | ? ? Hx Hl]; subst.
  destruct (has_key postId userId x) eqn:E.
  - injection Hfind as ->. f_equal.
    destruct (filter (has_key postId userId) l) as [ | y r] eqn:F;
      [reflexivity | ].
    exfalso. apply Hx.
    assert (Hy : In y (filter (has_key postId userId) l))
      by (rewrite F; now left).
    apply filter_In in Hy. destruct Hy as [Hin Hk].
    apply has_key_iff in E, Hk. rewrite E, <- Hk. now apply in_map.
  - now apply IH.
Qed.

Lemma setRead_cases (db : Db) (now : Z) (u id : string) (m : ReadPosts.t)
  (db' : Db) :
  postRouter.setRead db now u id = Ok (m, db') ->
  (readPosts_by_key db id u = Some m /\ db' = db)
  \/ (readPosts_by_key db id u = None
      /\ marker_key m = (id, u)
      /\ db' = set_readPosts db (readPosts db ++ [m])).
Proof.
  unfold postRouter.setRead, ReadPosts_upsert.
  destruct (readPosts_by_key db id u) as [m0 | ] eqn:E.
  - intros [= <- <-]. now left.
  - destruct (user_by_id db u) as [usr | ] eqn:Eu; [ | discriminate].
    destruct (post_by_id db id) as [p | ]; [ | discriminate].
    intros [= <- <-]. right. split; [reflexivity | ]. split; [ | reflexivity].
    destruct (user_by_id_some _ _ _ Eu) as [_ Hid].
    unfold marker_key, ReadPosts.userId. cbn. now rewrite Hid.
Qed.

Lemma setRead_keeps_unique (db : Db) (now : Z) (u id : string)
  (m : ReadPosts.t) (db' : Db) :
  markers_unique db ->
  postRouter.setRead db now u id = Ok (m, db') ->
  markers_unique db'.
Proof.
  intros Hnd H. apply setRead_cases in H.
  destruct H as [[_ ->] | (Hnone & Hkey & ->)]; [exact Hnd | ].
  unfold markers_unique in *. cbn. rewrite map_app. cbn.
  apply NoDup_rev in Hnd. rewrite <- (rev_involutive (_ ++ _)).
  apply NoDup_rev. rewrite rev_app_distr. cbn.
  constructor; [ | exact Hnd].
  rewrite <- in_rev, in_map_iff. intros (x & Hx & Hin).
  unfold readPosts_by_key in Hnone.
  pose proof (find_none _ _ Hnone x Hin) as Hf. cbn in Hf.
  rewrite Hkey in Hx.
  fold (has_key id u x) in Hf. apply has_key_iff in Hx. congruence.
Qed.

Lemma setRead_again (db : Db) (now now' : Z) (u id : string)
  (m : ReadPosts.t) (db' : Db) :
  postRouter.setRead db now u id = Ok (m, db') ->
  postRouter.setRead db' now' u id = Ok (m, db').
Proof.
  intros H. apply setRead_cases in H.
  unfold postRouter.setRead, ReadPosts_upsert.
  destruct H as [[Hsome ->] | (Hnone & Hkey & ->)].
  - now rewrite Hsome.
  - unfold readPosts_by_key in *. cbn.
    rewrite find_over_app, Hnone. cbn.
    apply has_key_iff in Hkey. unfold has_key in Hkey. now rewrite Hkey.
Qed.

Lemma setRead_one_marker (db : Db) (now : Z) (u id : string)
  (m : ReadPosts.t) (db' : Db) :
  markers_unique db ->
  postRouter.setRead db now u id = Ok (m, db') ->
  filter (has_key id u) (readPosts db') = [m].
Proof.
  intros Hnd H.
  pose proof (setRead_keeps_unique _ _ _ _ _ _ Hnd H) as Hnd'.
  apply (setRead_again _ _ now) in H. apply setRead_cases in H.
  destruct H as [[Hsome _] | (Hnone & _ & Hdb)].
  - now apply filter_unique_key.
  - exfalso. apply (f_equal readPosts) in Hdb. cbn in Hdb.
    apply (f_equal (@length _)) in Hdb. rewrite length_app in Hdb.
    cbn in Hdb. lia.
Qed.

Lemma setRead_succeeds (db : Db) (now : Z) (u id : string) (usr : User.t)
  (p : Post.t) :
  user_by_id db u = Some usr -> post_by_id db id = Some p ->
  exists m db', postRouter.setRead db now u id = Ok (m, db').
Proof.
  intros Hu Hp. unfold postRouter.setRead, ReadPosts_upsert.
  destruct (readPosts_by_key db id u) as [m | ].
  - now exists m, db.
  - rewrite Hu, Hp. eexists. eexists. reflexivity.
Qed.

Lemma setRead_reachable_unique (db0 db : Db) :
  markers_unique db0 -> setRead_reachable db0 db -> markers_unique db.
Proof.
  intros H0 Hr. induction Hr as [ | db db' now u id m _ IH Hstep].
  - exact H0.
  - eapply setRead_keeps_unique; eassumption.
Qed.

(** C7: [setRead] is idempotent.  From a state with at most one marker
    for each pair of a user and a post, a call for an existing user and
    an existing post succeeds; after a successful call there is exactly
    one marker for the pair, and a second call returns the same marker
    and leaves the state as it is; every state reached by calls of
    [setRead] has at most one marker for each pair. *)
Theorem setRead_idempotent :
  forall (db : Db) (now now' : Z) (sessionUserId id : string),
    markers_unique db ->
    (forall (usr : User.t) (p : Post.t),
        user_by_id db sessionUserId = Some usr ->
        post_by_id db id = Some p ->
        exists m db1, postRouter.setRead db now sessionUserId id = Ok (m, db1))
    /\ (forall (m : ReadPosts.t) (db1 : Db),
           postRouter.setRead db now sessionUserId id = Ok (m, db1) ->
           postRouter.setRead db1 now' sessionUserId id = Ok (m, db1)
           /\ marker_count db1 sessionUserId id = 1
           /\ markers_unique db1)
    /\ (forall db1 : Db, setRead_reachable db db1 -> markers_unique db1).
Proof.
  intros db now now' u id Hnd. split; [ | split].
  - intros usr p. apply setRead_succeeds.
  - intros m db1 H. split; [ | split].
    + now apply (setRead_again db now).
    + unfold marker_count.
      now rewrite (setRead_one_marker db now u id m db1 Hnd H).
    + now apply (setRead_keeps_unique db now u id m).
  - intros db1. now apply setRead_reachable_unique.
Qed.

Lemma example_db_markers_unique : markers_unique example_db.
Proof.
  unfold markers_unique. cbn. constructor; [intros [] | constructor].
Qed.

Lemma setRead_idempotent_witness :
  markers_unique example_db
  /\ exists m db1,
      postRouter.setRead example_db 8 "u2" "B" = Ok (m, db1)
      /\ postRouter.setRead db1 9 "u2" "B" = Ok (m, db1)
      /\ marker_count db1 "u2" "B" = 1
      /\ markers_unique db1.
Proof.
  split; [exact example_db_markers_unique | ].
  destruct (setRead_idempotent example_db 8 9 "u2" "B"
              example_db_markers_unique) as (Hok & Hagain & _).
  destruct (Hok example_reader (example_post "B" 2 false false)
              eq_refl eq_refl) as (m & db1 & H).
  exists m, db1. split; [exact H | ]. now apply Hagain.
Defined.

(** ** One page *)

Lemma list_fetched_rows (db : Db) (u : string) (input : ListPostsInput.t) :
  list_fetched db u input
  = map (withCommentsPostSelect db)
        (firstn (effective_limit input + 1) (list_rows db u input)).
Proof. reflexivity. Qed.

(** The response of [list] in terms of the rows it ranges over. *)
Lemma list_page (db : Db) (u : string) (input : ListPostsInput.t) :
  postRouter.list db u input
  = ListOutput.mk
      (rev (map (feedback_item db u)
                (firstn (effective_limit input) (list_rows db u input))))
      (option_map Post.id
         (nth_error (list_rows db u input) (effective_limit input))).
Proof.
  unfold postRouter.list. fold (effective_limit input).
  fold (list_fetched db u input). rewrite list_fetched_rows.
  set (n := effective_limit input). set (rows := list_rows db u input).
  destruct (nth_error rows n) as [x | ] eqn:E.
  - assert (Hlen : n < length rows)
      by (apply nth_error_Some; congruence).
    rewrite (firstn_succ_nth _ _ _ E), map_app. cbn [map].
    rewrite pop_snoc.
    replace (Nat.ltb n _) with true.
    + cbn. now rewrite map_map.
    + symmetry. apply Nat.ltb_lt.
      rewrite length_app, length_map, length_firstn. cbn. lia.
  - apply nth_error_None in E.
    rewrite !firstn_all2 by lia.
    replace (Nat.ltb n _) with false
      by (symmetry; apply Nat.ltb_ge; rewrite length_map; lia).
    cbn. now rewrite map_map.
Qed.

(** ** Rows in order *)

Section CursorRows.
Context {A : Type} (key : A -> Z) (o : SortOrder).

(** In rows ordered by distinct keys, the rows at or after a row are
    that row and the rows behind it. *)
Lemma rows_from_cursor (front back : list A) (r : A) :
  StronglySorted (in_order key o) (front ++ r :: back) ->
  NoDup (map key (front ++ r :: back)) ->
  filter (fun p => precedes o (key r) (key p)) (front ++ r :: back)
  = r :: back.
Proof.
  intros Hs Hnd. destruct (StronglySorted_app_inv _ _ _ Hs) as [Hback Hfront].
  rewrite filter_app, filter_all_false, filter_all_true; [reflexivity | | ].
  - intros x [-> | Hx].
    + destruct o; cbn; lia.
    + inversion Hback as [ | ? ? _ Hr]; subst.
      rewrite Forall_forall in Hr. now apply Hr.
  - intros x Hx. destruct (precedes o (key r) (key x)) eqn:E; [ | reflexivity].
    exfalso.
    assert (Hxr : in_order key o x r) by (apply Hfront; [exact Hx | now left]).
    pose proof (precedes_antisym o _ _ E Hxr) as Hk.
    rewrite map_app in Hnd. cbn in Hnd.
    apply NoDup_remove_2 in Hnd. apply Hnd, in_or_app. left.
    rewrite Hk. now apply in_map.
Qed.
End CursorRows.

Lemma from_cursor_at (id : string) (front back : list Post.t) (r : Post.t) :
  (forall p, In p front -> Post.id p <> id) -> Post.id r = id ->
  from_cursor id (front ++ r :: back) = r :: back.
Proof.
  intros Hfront Hr. induction front as [ | x front IH]; cbn.
  - apply String.eqb_eq in Hr. now rewrite Hr.
  - assert (Hx : String.eqb (Post.id x) id = false)
      by (apply String.eqb_neq, Hfront; now left).
    rewrite Hx. apply IH. intros p Hp. apply Hfront. now right.
Qed.

Lemma from_cursor_split (id : string) (rows : list Post.t) :
  exists front,
    rows = front ++ from_cursor id rows
    /\ forall p, In p front -> Post.id p <> id.
Proof.
  induction rows as [ | x rows IH]; cbn.
  - exists []. split; [reflexivity | intros p []].
  - destruct (String.eqb (Post.id x) id) eqn:E.
    + exists []. split; [reflexivity | intros p []].
    + destruct IH as (front & Hsplit & Hfront).
      exists (x :: front). split; [cbn; now f_equal | ].
      intros p [<- | Hp]; [now apply String.eqb_neq | now apply Hfront].
Qed.

Lemma from_cursor_head (id : string) (rows : list Post.t) :
  from_cursor id rows = []
  \/ exists r back, from_cursor id rows = r :: back /\ Post.id r = id.
Proof.
  induction rows as [ | x rows IH]; cbn; [now left | ].
  destruct (String.eqb (Post.id x) id) eqn:E; [ | exact IH].
  right. exists x, rows. split; [reflexivity | now apply String.eqb_eq].
Qed.

Lemma from_cursor_none (id : string) (rows : list Post.t) :
  (forall p, In p rows -> Post.id p <> id) -> from_cursor id rows = [].
Proof.
  induction rows as [ | x rows IH]; cbn; intros H; [reflexivity | ].
  assert (Hx : String.eqb (Post.id x) id = false)
    by (apply String.eqb_neq, H; now left).
  rewrite Hx. apply IH. intros p Hp. apply H. now right.
Qed.

Lemma from_cursor_In (id : string) (rows : list Post.t) (p : Post.t) :
  In p (from_cursor id rows) -> In p rows.
Proof.
  destruct (from_cursor_split id rows) as (front & Hsplit & _).
  intros H. rewrite Hsplit. apply in_or_app. now right.
Qed.

Lemma post_by_id_unique (db : Db) (p : Post.t) :
  NoDup (map Post.id (posts db)) -> In p (posts db) ->
  post_by_id db (Post.id p) = Some p.
Proof. intros Hnd Hin. now apply find_NoDup_key. Qed.

(** ** Paging through a store at rest *)

Section Pagination.
Variables (db : Db) (u : string) (f : Filter.t) (o : SortOrder).
Variable limit : option nat.

Hypothesis ids_distinct : NoDup (map Post.id (posts db)).
Hypothesis ids_nonempty : forall p, In p (posts db) -> Post.id p <> "".
Hypothesis limit_positive : limit <> Some 0.

Local Abbreviation n := (effective_limit (ListPostsInput.mk f o limit None)).
Local Abbreviation all_rows := (filter_rows db u f o).

Lemma all_rows_posts (p : Post.t) : In p all_rows -> In p (posts db).
Proof.
  unfold filter_rows. rewrite orderBy_In, filter_In. tauto.
Qed.

Lemma all_rows_keys {B : Type} (key : Post.t -> B) :
  NoDup (map key (posts db)) -> NoDup (map key all_rows).
Proof.
  intros H. unfold filter_rows.
  eapply Permutation_NoDup.
  - apply Permutation_map, Permutation_sym, orderBy_perm.
  - now apply NoDup_map_filter.
Qed.

Lemma list_rows_start :
  list_rows db u (ListPostsInput.mk f o limit None) = all_rows.
Proof. reflexivity. Qed.

Lemma list_rows_resume (front back : list Post.t) (r : Post.t) :
  all_rows = front ++ r :: back ->
  list_rows db u (ListPostsInput.mk f o limit (Some (Post.id r))) = r :: back.
Proof.
  intros Hsplit.
  assert (Hin : In r (posts db)).
  { apply all_rows_posts. rewrite Hsplit. apply in_or_app. right. now left. }
  unfold list_rows, postRouter.list_args, Post_candidates. cbn.
  assert (Ht : truthy (Post.id r) = true).
  { unfold truthy. apply negb_true_iff, String.eqb_neq. now apply ids_nonempty. }
  rewrite Ht. fold (filter_rows db u f o). rewrite Hsplit.
  apply from_cursor_at; [ | reflexivity].
  pose proof (all_rows_keys Post.id ids_distinct) as Hnd.
  rewrite Hsplit, map_app in Hnd. cbn in Hnd.
  apply NoDup_remove_2 in Hnd.
  intros p Hp Heq. apply Hnd, in_or_app. left.
  rewrite <- Heq. now apply in_map.
Qed.

Lemma n_positive : 0 < n.
Proof.
  unfold effective_limit. cbn. destruct limit as [[ | k] | ];
    [congruence | lia | lia].
Qed.

(** From a cursor that ranges over a tail of the rows, the client
    comes to an end and has collected that tail, page by page. *)
Lemma paginate_tail (fuel : nat) :
  forall (front tail : list Post.t) (cursor : option string),
    all_rows = front ++ tail ->
    list_rows db u (ListPostsInput.mk f o limit cursor) = tail ->
    length tail < fuel ->
    exists pages,
      paginate fuel db u f o limit cursor = Some pages
      /\ concat (map (@rev FeedbackItem.t) pages)
         = map (feedback_item db u) tail
      /\ Forall (fun page => length page <= n) pages.
Proof.
  induction fuel as [ | fuel IH]; intros front tail cursor Hsplit Hrows Hfuel.
  - lia.
  - cbn [paginate]. rewrite list_page, Hrows.
    change (effective_limit (ListPostsInput.mk f o limit cursor)) with n.
    cbn [ListOutput.nextCursor ListOutput.items].
    destruct (nth_error tail n) as [x | ] eqn:E; cbn [option_map].
    + pose proof (nth_error_split_at _ _ _ E) as Htail.
      assert (Hlen : n < length tail) by (apply nth_error_Some; congruence).
      destruct (IH (front ++ firstn n tail) (x :: skipn (S n) tail)
                   (Some (Post.id x))) as (pages & Hp & Hc & Hn).
      * rewrite <- app_assoc, <- Htail. exact Hsplit.
      * apply (list_rows_resume (front ++ firstn n tail)).
        rewrite <- app_assoc, <- Htail. exact Hsplit.
      * cbn [length]. rewrite length_skipn. pose proof n_positive. lia.
      * rewrite Hp. eexists. split; [reflexivity | ]. split.
        -- cbn [map concat]. rewrite rev_involutive, Hc, <- map_app.
           now rewrite <- Htail.
        -- constructor; [ | exact Hn].
           rewrite length_rev, length_map, length_firstn. lia.
    + apply nth_error_None in E. rewrite firstn_all2 by lia.
      eexists. split; [reflexivity | ]. split.
      * cbn. now rewrite rev_involutive, app_nil_r.
      * constructor; [ | constructor]. rewrite length_rev, length_map. lia.
Qed.

Lemma unpaginated_rows :
  unpaginated db u f o = map (feedback_item db u) all_rows.
Proof. unfold unpaginated, Post_findMany. cbn. now rewrite map_map. Qed.

Lemma all_rows_length : length all_rows <= length (posts db).
Proof.
  unfold filter_rows. rewrite orderBy_length. apply filter_length_le.
Qed.

Lemma paginate_all (fuel : nat) :
  length (posts db) < fuel ->
  exists pages,
    paginate fuel db u f o limit None = Some pages
    /\ concat (map (@rev FeedbackItem.t) pages) = unpaginated db u f o
    /\ Permutation (concat pages) (unpaginated db u f o)
    /\ NoDup (map FeedbackItem.id (concat pages))
    /\ Forall (fun page => length page <= n) pages.
Proof.
  intros Hfuel.
  destruct (paginate_tail fuel [] all_rows None eq_refl list_rows_start)
    as (pages & Hp & Hc & Hn).
  - pose proof all_rows_length. lia.
  - exists pages. rewrite unpaginated_rows, <- Hc.
    split; [exact Hp | ]. split; [reflexivity | ].
    split; [apply concat_rev_pages | ]. split; [ | exact Hn].
    eapply Permutation_NoDup.
    + apply Permutation_map, Permutation_sym, concat_rev_pages.
    + rewrite Hc, map_map. cbn. apply all_rows_keys, ids_distinct.
Qed.
End Pagination.

(** C2, as the code has it: in a store at rest whose posts have
    distinct, non-empty identifiers and distinct creation times, for
    every filter, every order and every limit but zero, a client that
    feeds each [nextCursor] back comes to a response without one within
    as many calls as there are posts plus one; the pages, each read
    backwards, make up one after the other the unpaginated fetch with
    the same filter and order; so the items of all the pages are the
    records of that fetch, none twice and none left out. *)
Theorem pagination_pages_cover :
  forall (db : Db) (sessionUserId : string) (filter : Filter.t)
         (order : SortOrder) (limit : option nat) (fuel : nat),
    NoDup (map Post.id (posts db)) ->
    (forall p, In p (posts db) -> Post.id p <> "") ->
    NoDup (map Post.createdAt (posts db)) ->
    limit <> Some 0 ->
    length (posts db) < fuel ->
    exists pages : list (list FeedbackItem.t),
      paginate fuel db sessionUserId filter order limit None = Some pages
      /\ concat (map (@rev FeedbackItem.t) pages)
         = unpaginated db sessionUserId filter order
      /\ Permutation (concat pages)
                     (unpaginated db sessionUserId filter order)
      /\ NoDup (map FeedbackItem.id (concat pages)).
Proof.
  intros db u f o limit fuel Hids Hne Htimes Hlimit Hfuel.
  destruct (paginate_all db u f o limit Hids Hne Hlimit fuel Hfuel)
    as (pages & Hp & Hc & Hperm & Hnd & _).
  now exists pages.
Qed.

Lemma pagination_pages_cover_witness :
  exists pages : list (list FeedbackItem.t),
    paginate 4 example_db "u2" Filter.all asc (Some 2) None = Some pages
    /\ concat (map (@rev FeedbackItem.t) pages)
       = unpaginated example_db "u2" Filter.all asc
    /\ Permutation (concat pages) (unpaginated example_db "u2" Filter.all asc)
    /\ NoDup (map FeedbackItem.id (concat pages)).
Proof.
  apply pagination_pages_cover.
  - cbn. repeat constructor; cbn; intuition discriminate.
  - cbn. intros p [<- | [<- | [<- | []]]]; discriminate.
  - cbn. repeat constructor; cbn; intuition discriminate.
  - discriminate.
  - cbn. lia.
Defined.

(** C2, as it is stated, fails: with three posts and a limit of two the
    pages are [B; A] and [C], whose concatenation is neither the
    unpaginated fetch [A; B; C] nor its reverse. *)
Lemma pagination_concat_counterexample :
  option_map (fun pages => map FeedbackItem.id (concat pages))
    (paginate 4 example_db "u2" Filter.all asc (Some 2) None)
  = Some ["B"; "A"; "C"]
  /\ map FeedbackItem.id (unpaginated example_db "u2" Filter.all asc)
     = ["A"; "B"; "C"]
  /\ option_map (@concat FeedbackItem.t)
       (paginate 4 example_db "u2" Filter.all asc (Some 2) None)
     <> Some (unpaginated example_db "u2" Filter.all asc)
  /\ option_map (@concat FeedbackItem.t)
       (paginate 4 example_db "u2" Filter.all asc (Some 2) None)
     <> Some (rev (unpaginated example_db "u2" Filter.all asc)).
Proof.
  split; [reflexivity | ]. split; [reflexivity | ].
  split; intros H;
    apply (f_equal (option_map (map FeedbackItem.id))) in H;
    vm_compute in H; discriminate H.
Qed.

(** The rows a [findMany] ranges over are rows of the table that the
    predicate holds of; without a cursor they are all of them. *)
Lemma Post_candidates_In (db : Db) (w : PostWhereInput.t) (o : SortOrder)
  (cursor : option string) (p : Post.t) :
  In p (Post_candidates db w o cursor) ->
  In p (posts db) /\ post_matches db w p = true.
Proof.
  unfold Post_candidates. intros H.
  assert (Hp : In p (orderBy Post.createdAt o
                       (filter (post_matches db w) (posts db)))).
  { destruct cursor as [c | ]; [ | exact H]. now apply from_cursor_In in H. }
  apply orderBy_In, filter_In in Hp. exact Hp.
Qed.

Lemma Post_candidates_sorted (db : Db) (w : PostWhereInput.t) (o : SortOrder)
  (cursor : option string) :
  StronglySorted (in_order Post.createdAt o) (Post_candidates db w o cursor).
Proof.
  unfold Post_candidates.
  pose proof (orderBy_sorted Post.createdAt o
                (filter (post_matches db w) (posts db))) as Hs.
  destruct cursor as [c | ]; [ | exact Hs].
  destruct (from_cursor_split c
              (orderBy Post.createdAt o (filter (post_matches db w) (posts db))))
    as (front & Hsplit & _).
  rewrite Hsplit in Hs. now apply StronglySorted_app_inv in Hs.
Qed.

(** C3: one call of [list] fetches the first [limit + 1] rows, with
    [limit] 50 when it is absent, of the rows of the filter ordered by
    creation time in the requested order, from the cursor row on: all
    of them without a cursor; under a cursor none when no row of the
    filter has the cursor's identifier, and otherwise the cursor row
    first and behind it every row of the filter whose creation time
    comes after the cursor row's.  When more than [limit] were
    fetched, the last fetched is taken off and its identifier is the
    [nextCursor], and otherwise there is no [nextCursor]; the items
    are the remaining records, post-processed, in the reverse of the
    order of the fetch. *)
Theorem list_one_page :
  forall (db : Db) (sessionUserId : string) (input : ListPostsInput.t),
    let limit := match ListPostsInput.limit input with
                 | Some n => n
                 | None => 50
                 end in
    let order := ListPostsInput.order input in
    let where_ :=
      postRouter.getFilterWhereClause sessionUserId
        (ListPostsInput.filter input) in
    let rows := list_rows db sessionUserId input in
    let fetched := list_fetched db sessionUserId input in
    let response := postRouter.list db sessionUserId input in
    fetched = map (withCommentsPostSelect db) (firstn (limit + 1) rows)
    /\ length fetched <= limit + 1
    /\ StronglySorted (in_order Post.createdAt order) rows
    /\ (forall p,
           In p rows -> In p (posts db) /\ post_matches db where_ p = true)
    /\ (ListPostsInput.cursor input = None
        \/ ListPostsInput.cursor input = Some "" ->
        forall p,
          In p (posts db) -> post_matches db where_ p = true -> In p rows)
    /\ (forall c,
           ListPostsInput.cursor input = Some c -> c <> "" ->
           ((forall p, In p (posts db) -> post_matches db where_ p = true ->
                       Post.id p <> c) ->
            rows = [])
           /\ ((exists p, In p (posts db) /\ post_matches db where_ p = true
                          /\ Post.id p = c) ->
               exists r back,
                 rows = r :: back
                 /\ Post.id r = c
                 /\ (NoDup (map Post.id (posts db)) ->
                     post_by_id db c = Some r)
                 /\ forall p,
                     In p (posts db) -> post_matches db where_ p = true ->
                     precedes order (Post.createdAt p) (Post.createdAt r)
                     = false ->
                     In p back))
    /\ (limit < length fetched ->
        exists front nextItem,
          fetched = front ++ [nextItem]
          /\ ListOutput.nextCursor response = Some (PostPayload.id nextItem)
          /\ ListOutput.items response
             = rev (map (fun item => processFeedbackItem item sessionUserId)
                        front))
    /\ (length fetched <= limit ->
        ListOutput.nextCursor response = None
        /\ ListOutput.items response
           = rev (map (fun item => processFeedbackItem item sessionUserId)
                      fetched)).
Proof.
  intros db u input limit order where_ rows fetched response.
  assert (Hf : fetched
               = map (withCommentsPostSelect db) (firstn (limit + 1) rows))
    by apply list_fetched_rows.
  assert (Hlen : length fetched = Nat.min (limit + 1) (length rows))
    by (rewrite Hf, length_map; apply length_firstn).
  set (all_rows := filter_rows db u (ListPostsInput.filter input) order).
  assert (Hall : forall p,
             In p (posts db) -> post_matches db where_ p = true ->
             In p all_rows).
  { intros p Hp Hm. unfold all_rows, filter_rows.
    apply orderBy_In, filter_In. now split. }
  split; [exact Hf | ]. split; [lia | ].
  split; [apply Post_candidates_sorted | ].
  split; [intros p; apply Post_candidates_In | ].
  split; [ | split; [ | split]].
  - intros Hc p Hp Hm.
    assert (Hrows : rows = all_rows).
    { unfold rows, list_rows, postRouter.list_args, Post_candidates. cbn.
      destruct Hc as [-> | ->]; reflexivity. }
    rewrite Hrows. now apply Hall.
  - intros c Hc Hne.
    assert (Hrows : rows = from_cursor c all_rows).
    { unfold rows, list_rows, postRouter.list_args, Post_candidates. cbn.
      rewrite Hc. unfold truthy.
      apply String.eqb_neq in Hne. now rewrite Hne. }
    split.
    + intros Hnone. rewrite Hrows. apply from_cursor_none.
      intros p Hp. unfold all_rows, filter_rows in Hp.
      apply orderBy_In, filter_In in Hp. destruct Hp as [Hp Hm].
      now apply Hnone.
    + intros (r0 & Hr0 & Hm0 & Hid0).
      destruct (from_cursor_split c all_rows) as (front & Hsplit & Hfront).
      destruct (from_cursor_head c all_rows)
        as [Hnil | (r & back & Hcons & Hid)].
      * exfalso. rewrite Hnil, app_nil_r in Hsplit.
        apply (Hfront r0); [ | exact Hid0].
        rewrite <- Hsplit. now apply Hall.
      * exists r, back. rewrite Hrows. split; [exact Hcons | ].
        split; [exact Hid | ]. rewrite Hcons in Hsplit. split.
        -- intros Hids. rewrite <- Hid. apply post_by_id_unique; [exact Hids | ].
           assert (Hr : In r all_rows)
             by (rewrite Hsplit; apply in_or_app; right; now left).
           unfold all_rows, filter_rows in Hr.
           apply orderBy_In, filter_In in Hr. tauto.
        -- intros p Hp Hm Hafter.
           pose proof (Hall p Hp Hm) as Hin. rewrite Hsplit in Hin.
           assert (Hs : StronglySorted (in_order Post.createdAt order)
                                       all_rows)
             by apply orderBy_sorted.
           rewrite Hsplit in Hs.
           apply StronglySorted_app_inv in Hs. destruct Hs as [_ Hbefore].
           apply in_app_or in Hin. destruct Hin as [Hin | [<- | Hin]].
           ++ exfalso. specialize (Hbefore p r Hin (or_introl eq_refl)).
              unfold in_order in Hbefore. congruence.
           ++ exfalso. destruct order; cbn in Hafter; lia.
           ++ exact Hin.
  - intros Hlt. subst response. rewrite list_page.
    fold rows. change (effective_limit input) with limit.
    destruct (nth_error rows limit) as [x | ] eqn:E.
    + exists (map (withCommentsPostSelect db) (firstn limit rows)),
        (withCommentsPostSelect db x).
      split; [ | split].
      * rewrite Hf, (firstn_succ_nth _ _ _ E), map_app. reflexivity.
      * reflexivity.
      * cbn. now rewrite map_map.
    + apply nth_error_None in E. lia.
  - intros Hle. subst response. rewrite list_page.
    fold rows. change (effective_limit input) with limit.
    assert (Hrows : length rows <= limit) by lia.
    rewrite (proj2 (nth_error_None rows limit) Hrows), Hf.
    rewrite !firstn_all2 by lia. cbn. now rewrite map_map.
Qed.

Lemma list_one_page_witness :
  exists front nextItem,
    list_fetched example_db "u2"
      (ListPostsInput.mk Filter.all asc (Some 1) (Some "B"))
    = front ++ [nextItem]
    /\ ListOutput.nextCursor
         (postRouter.list example_db "u2"
            (ListPostsInput.mk Filter.all asc (Some 1) (Some "B")))
       = Some (PostPayload.id nextItem)
    /\ ListOutput.items
         (postRouter.list example_db "u2"
            (ListPostsInput.mk Filter.all asc (Some 1) (Some "B")))
       = rev (map (fun item => processFeedbackItem item "u2") front).
Proof.
  apply (list_one_page example_db "u2"
           (ListPostsInput.mk Filter.all asc (Some 1) (Some "B"))).
  cbn. lia.
Defined.

(** ** The specification's examples *)

(** With the filter [unread], the user [u2], who has read [A] only,
    is listed the other posts. *)
Example list_unread_example :
  map FeedbackItem.id
    (ListOutput.items
       (postRouter.list example_db "u2"
          (ListPostsInput.mk Filter.unread desc None None)))
  = ["B"; "C"].
Proof. reflexivity. Qed.

(** A post added anonymously reads ['Anonymous (you)'] to its author
    and ['Anonymous'] to another user, while [add] itself returned the
    author's name. *)
Example add_then_byId_example :
  match postRouter.add example_db (Generated.mk "N" 9 false true false) "u1"
          (AddPostInput.mk "T" "C" "<p>C</p>" (Some true)) with
  | Ok (created, db') =>
      AuthorPayload.name (PostPayload.author created) = Some "Ann"
      /\ match postRouter.byId db' "u1" "N", postRouter.byId db' "u2" "N" with
         | Ok mine, Ok theirs =>
             AuthorPayload.name (FeedbackItem.author mine)
             = Some "Anonymous (you)"
             /\ AuthorPayload.name (FeedbackItem.author theirs)
                = Some "Anonymous"
         | _, _ => False
         end
  | Throw _ => False
  end.
Proof. cbn. repeat split. Qed.

(** * Further properties of the router *)

(** ** More on lists *)

Lemma In_firstn_In {A : Type} (n : nat) (l : list A) (x : A) :
  In x (firstn n l) -> In x l.
Proof.
  intros H. rewrite <- (firstn_skipn n l). apply in_or_app. now left.
Qed.

Lemma StronglySorted_firstn {A : Type} (R : A -> A -> Prop) (n : nat)
  (l : list A) :
  StronglySorted R l -> StronglySorted R (firstn n l).
Proof.
  intros H. revert n. induction H as [ | x l Hl IH Hx]; intros [ | n]; cbn;
    try constructor.
  - apply IH.
  - rewrite Forall_forall in *. intros y Hy. apply Hx.
    now apply In_firstn_In in Hy.
Qed.

Lemma StronglySorted_snoc {A : Type} (R : A -> A -> Prop) (l : list A)
  (x : A) :
  StronglySorted R l -> Forall (fun y => R y x) l ->
  StronglySorted R (l ++ [x]).
Proof.
  induction 1 as [ | y l Hl IH Hy]; cbn; intros Hx.
  - repeat constructor.
  - inversion Hx as [ | ? ? Hyx Hlx]; subst.
    constructor; [now apply IH | ].
    apply Forall_app. split; [exact Hy | now constructor].
Qed.

Lemma StronglySorted_rev {A : Type} (R : A -> A -> Prop) (l : list A) :
  StronglySorted R l -> StronglySorted (fun a b => R b a) (rev l).
Proof.
  induction 1 as [ | x l Hl IH Hx]; cbn.
  - constructor.
  - apply StronglySorted_snoc; [exact IH | ].
    rewrite Forall_forall in *. intros y Hy. apply Hx. now apply in_rev.
Qed.

Lemma StronglySorted_map {A B : Type} (R : B -> B -> Prop) (f : A -> B)
  (l : list A) :
  StronglySorted (fun a b => R (f a) (f b)) l -> StronglySorted R (map f l).
Proof.
  induction 1 as [ | x l Hl IH Hx]; cbn; constructor.
  - exact IH.
  - rewrite Forall_forall in *. intros y Hy.
    apply in_map_iff in Hy. destruct Hy as (z & <- & Hz). now apply Hx.
Qed.

Lemma filter_split_perm {A : Type} (f : A -> bool) (l : list A) :
  Permutation (filter f l ++ filter (fun x => negb (f x)) l) l.
Proof.
  induction l as [ | x l IH]; cbn.
  - constructor.
  - destruct (f x); cbn.
    + now apply perm_skip.
    + rewrite <- Permutation_middle. now apply perm_skip.
Qed.

(** ** One page, seen from the caller *)

Lemma Post_candidates_keys {B : Type} (key : Post.t -> B) (db : Db)
  (w : PostWhereInput.t) (o : SortOrder) (cursor : option string) :
  NoDup (map key (posts db)) ->
  NoDup (map key (Post_candidates db w o cursor)).
Proof.
  intros H. unfold Post_candidates.
  assert (Hrows : NoDup (map key (orderBy Post.createdAt o
                                    (filter (post_matches db w) (posts db))))).
  { eapply Permutation_NoDup.
    - apply Permutation_map, Permutation_sym, orderBy_perm.
    - now apply NoDup_map_filter. }
  destruct cursor as [c | ]; [ | exact Hrows].
  destruct (from_cursor_split c
              (orderBy Post.createdAt o (filter (post_matches db w) (posts db))))
    as (front & Hsplit & _).
  rewrite Hsplit, map_app in Hrows. now apply NoDup_app_remove_l in Hrows.
Qed.

Lemma list_items_In (db : Db) (u : string) (input : ListPostsInput.t)
  (item : FeedbackItem.t) :
  In item (ListOutput.items (postRouter.list db u input))
  <-> exists p,
      In p (firstn (effective_limit input) (list_rows db u input))
      /\ item = feedback_item db u p.
Proof.
  rewrite list_page. cbn. rewrite <- in_rev, in_map_iff.
  split; intros (p & H1 & H2); exists p; [now split | now split].
Qed.

Lemma list_rows_In (db : Db) (u : string) (input : ListPostsInput.t)
  (p : Post.t) :
  In p (list_rows db u input) ->
  In p (posts db)
  /\ post_matches db
       (postRouter.getFilterWhereClause u (ListPostsInput.filter input)) p
     = true.
Proof.
  unfold list_rows. apply Post_candidates_In.
Qed.

Lemma feedback_item_author (db : Db) (u : string) (p : Post.t) :
  FeedbackItem.author (feedback_item db u p) = shown_author p u.
Proof.
  unfold feedback_item, processFeedbackItem, shown_author. cbn.
  destruct (Post.anonymous p); [ | reflexivity]. cbn.
  now destruct (String.eqb (Post.authorId p) u).
Qed.

Lemma filter_length_perm {A : Type} (f : A -> bool) (l l' : list A) :
  Permutation l l' -> length (filter f l) = length (filter f l').
Proof.
  induction 1 as [ | x l l' _ IH | x y l | l l' l'' _ IH1 _ IH2]; cbn.
  - reflexivity.
  - destruct (f x); cbn; now rewrite IH.
  - destruct (f x), (f y); reflexivity.
  - now rewrite IH1.
Qed.

Lemma list_rows_left (db : Db) (u : string) (input : ListPostsInput.t) :
  ListPostsInput.cursor input = None
  \/ ListPostsInput.cursor input = Some ""
  \/ (NoDup (map Post.id (posts db))
      /\ NoDup (map Post.createdAt (posts db))) ->
  length (list_rows db u input) = rows_left db u input.
Proof.
  set (f := ListPostsInput.filter input).
  set (o := ListPostsInput.order input).
  set (passing := filter (post_matches db (postRouter.getFilterWhereClause u f))
                         (posts db)).
  assert (Hplain : ListPostsInput.cursor input = None
                   \/ ListPostsInput.cursor input = Some "" ->
                   length (list_rows db u input) = rows_left db u input).
  { intros Hc. unfold list_rows, rows_left, postRouter.list_args,
      Post_candidates. cbn.
    destruct Hc as [-> | ->]; cbn; apply orderBy_length. }
  intros [Hc | [Hc | [Hids Htimes]]];
    [apply Hplain; tauto | apply Hplain; tauto | ].
  destruct (ListPostsInput.cursor input) as [c | ] eqn:Ec;
    [ | apply Hplain; now left].
  destruct (String.eqb c "") eqn:E.
  { apply String.eqb_eq in E. subst c. apply Hplain. now right. }
  assert (Hrows : list_rows db u input = from_cursor c (filter_rows db u f o)).
  { unfold list_rows, postRouter.list_args, Post_candidates. cbn.
    rewrite Ec. unfold truthy. now rewrite E. }
  rewrite Hrows. unfold rows_left. rewrite Ec, E. fold f o passing.
  destruct (find (fun p => String.eqb (Post.id p) c) passing) as [r | ] eqn:Er.
  - apply find_some in Er. destruct Er as [Hr Hid].
    apply String.eqb_eq in Hid.
    assert (Hin : In r (filter_rows db u f o))
      by (unfold filter_rows; now apply orderBy_In).
    destruct (in_split _ _ Hin) as (front & back & Hsplit).
    pose proof (all_rows_keys db u f o Post.id Hids) as Hnd.
    pose proof (all_rows_keys db u f o Post.createdAt Htimes) as Hnt.
    assert (Hs : StronglySorted (in_order Post.createdAt o)
                                (filter_rows db u f o))
      by apply orderBy_sorted.
    rewrite <- (filter_length_perm _ _ _
                  (orderBy_perm Post.createdAt o passing)).
    change (orderBy Post.createdAt o passing) with (filter_rows db u f o).
    rewrite Hsplit in *.
    rewrite (rows_from_cursor Post.createdAt o front back r Hs Hnt).
    rewrite from_cursor_at; [reflexivity | | exact Hid].
    rewrite map_app in Hnd. cbn in Hnd. apply NoDup_remove_2 in Hnd.
    intros p Hp Heq. apply Hnd, in_or_app. left.
    rewrite Hid, <- Heq. now apply in_map.
  - rewrite from_cursor_none; [reflexivity | ].
    intros p Hp. unfold filter_rows in Hp. apply orderBy_In in Hp.
    pose proof (find_none _ _ Er p Hp) as Hf. now apply String.eqb_neq.
Qed.

(** X1: a page of [list] never holds more than [limit] items (50
    when the input has none), and a page with a [nextCursor] is full.
    Without a cursor, and under a cursor when the posts have distinct
    identifiers and distinct creation times, the page holds as many
    items as rows are left for the call, up to [limit], and there is
    no [nextCursor] exactly when no more than [limit] rows are left;
    under a cursor none is left when no post that passes the filter
    has the cursor's identifier. *)
Theorem list_page_size :
  forall (db : Db) (sessionUserId : string) (input : ListPostsInput.t),
    let limit := match ListPostsInput.limit input with
                 | Some n => n
                 | None => 50
                 end in
    let left := rows_left db sessionUserId input in
    let response := postRouter.list db sessionUserId input in
    length (ListOutput.items response) <= limit
    /\ (forall c, ListOutput.nextCursor response = Some c ->
                  length (ListOutput.items response) = limit)
    /\ (ListPostsInput.cursor input = None
        \/ ListPostsInput.cursor input = Some ""
        \/ (NoDup (map Post.id (posts db))
            /\ NoDup (map Post.createdAt (posts db))) ->
        length (ListOutput.items response) = Nat.min limit left
        /\ (ListOutput.nextCursor response = None <-> left <= limit)).
Proof.
  intros db u input limit left response. subst response.
  rewrite list_page. set (rows := list_rows db u input).
  change (effective_limit input) with limit.
  cbn [ListOutput.items ListOutput.nextCursor].
  rewrite length_rev, length_map, length_firstn.
  assert (Hnext : option_map Post.id (nth_error rows limit) = None
                  <-> length rows <= limit).
  { destruct (nth_error rows limit) as [x | ] eqn:E; cbn.
    - assert (limit < length rows) by (apply nth_error_Some; congruence).
      split; [discriminate | lia].
    - apply nth_error_None in E. tauto. }
  split; [lia | ]. split.
  - intros c Hc.
    assert (~ length rows <= limit) by (rewrite <- Hnext, Hc; discriminate).
    lia.
  - intros Hcase. subst left.
    rewrite <- (list_rows_left db u input Hcase). fold rows.
    split; [reflexivity | exact Hnext].
Qed.

Lemma list_page_size_witness :
  length
    (ListOutput.items
       (postRouter.list example_db "u2"
          (ListPostsInput.mk Filter.unread asc (Some 5) (Some "A"))))
  = 0
  /\ length
       (ListOutput.items
          (postRouter.list example_db "u2"
             (ListPostsInput.mk Filter.all asc (Some 1) (Some "B"))))
     = 1.
Proof.
  split.
  - destruct (list_page_size example_db "u2"
                (ListPostsInput.mk Filter.unread asc (Some 5) (Some "A")))
      as (_ & _ & Hleft).
    apply Hleft. right. right.
    split; cbn; repeat constructor; cbn; intuition discriminate.
  - destruct (list_page_size example_db "u2"
                (ListPostsInput.mk Filter.all asc (Some 1) (Some "B")))
      as (_ & Hfull & _).
    apply (Hfull "C"). reflexivity.
Defined.

(** X2: the items of a page stand in the reverse of the requested
    order of creation: latest first when the order is ascending,
    earliest first when it is descending. *)
Theorem list_items_reverse_order :
  forall (db : Db) (sessionUserId : string) (input : ListPostsInput.t),
    StronglySorted
      (fun a b : FeedbackItem.t =>
         precedes (ListPostsInput.order input)
                  (FeedbackItem.createdAt b) (FeedbackItem.createdAt a) = true)
      (ListOutput.items (postRouter.list db sessionUserId input)).
Proof.
  intros db u input. rewrite list_page. cbn [ListOutput.items].
  apply (StronglySorted_rev
           (fun a b : FeedbackItem.t =>
              precedes (ListPostsInput.order input)
                       (FeedbackItem.createdAt a) (FeedbackItem.createdAt b)
              = true)).
  apply StronglySorted_map, StronglySorted_firstn.
  apply (Post_candidates_sorted db _ (ListPostsInput.order input)).
Qed.

(** X3: [list] returns nothing but posts of the store that pass the
    filter, each post-processed for the session user, and a
    [nextCursor] is the identifier of such a post; when the posts have
    distinct identifiers that post is none of the page's items. *)
Theorem list_items_pass_filter :
  forall (db : Db) (sessionUserId : string) (input : ListPostsInput.t),
    let where_ :=
      postRouter.getFilterWhereClause sessionUserId
        (ListPostsInput.filter input) in
    let response := postRouter.list db sessionUserId input in
    (forall item,
        In item (ListOutput.items response) ->
        exists p, In p (posts db) /\ post_matches db where_ p = true
                  /\ item = feedback_item db sessionUserId p)
    /\ (forall c,
           ListOutput.nextCursor response = Some c ->
           (exists p, In p (posts db) /\ post_matches db where_ p = true
                      /\ Post.id p = c)
           /\ (NoDup (map Post.id (posts db)) ->
               forall item, In item (ListOutput.items response) ->
                            FeedbackItem.id item <> c)).
Proof.
  intros db u input where_ response. split.
  - intros item Hitem. apply list_items_In in Hitem.
    destruct Hitem as (p & Hp & ->). apply In_firstn_In in Hp.
    destruct (list_rows_In _ _ _ _ Hp) as [Hin Hm]. now exists p.
  - intros c Hc. subst response. rewrite list_page in Hc. cbn in Hc.
    destruct (nth_error (list_rows db u input) (effective_limit input))
      as [x | ] eqn:E; [ | discriminate].
    cbn in Hc. injection Hc as <-. split.
    + destruct (list_rows_In _ _ _ _ (nth_error_In _ _ E)) as [Hin Hm].
      now exists x.
    + intros Hids item Hitem. apply list_items_In in Hitem.
      destruct Hitem as (p & Hp & ->). cbn. intros Heq.
      pose proof (Post_candidates_keys Post.id db
                    (postRouter.getFilterWhereClause u
                       (ListPostsInput.filter input))
                    (ListPostsInput.order input)
                    (FindManyArgs.cursor
                       (postRouter.list_args u input (effective_limit input)))
                    Hids) as Hnd.
      fold (list_rows db u input) in Hnd.
      rewrite (nth_error_split_at _ _ _ E), map_app in Hnd. cbn in Hnd.
      apply NoDup_remove_2 in Hnd. apply Hnd, in_or_app. left.
      rewrite <- Heq. now apply in_map.
Qed.

Lemma list_items_pass_filter_witness :
  exists p, In p (posts example_db)
            /\ post_matches example_db
                 (postRouter.getFilterWhereClause "u2" Filter.all) p = true
            /\ Post.id p = "B".
Proof.
  destruct (list_items_pass_filter example_db "u2"
              (ListPostsInput.mk Filter.all asc (Some 1) None))
    as [_ Hnext].
  destruct (Hnext "B" eq_refl) as [Hpost _]. exact Hpost.
Defined.

(** X4: whatever [list] and [byId] return of the author of a post is
    what a viewer may be shown: for an anonymous post a null image and
    the name ['Anonymous'], or ['Anonymous (you)'] when the session
    user is the author, and the author's own image and name for a
    post that is not anonymous; the item [byId] returns has the
    identifier asked for. *)
Theorem returned_author_is_shown_author :
  forall (db : Db) (sessionUserId : string),
    (forall (input : ListPostsInput.t) (item : FeedbackItem.t),
        In item (ListOutput.items (postRouter.list db sessionUserId input)) ->
        exists p, In p (posts db)
                  /\ Post.id p = FeedbackItem.id item
                  /\ Post.anonymous p = FeedbackItem.anonymous item
                  /\ FeedbackItem.author item = shown_author p sessionUserId)
    /\ (forall (id : string) (item : FeedbackItem.t),
           postRouter.byId db sessionUserId id = Ok item ->
           FeedbackItem.id item = id
           /\ exists p, In p (posts db)
                        /\ Post.id p = id
                        /\ Post.anonymous p = FeedbackItem.anonymous item
                        /\ FeedbackItem.author item
                           = shown_author p sessionUserId).
Proof.
  intros db u. split.
  - intros input item Hitem. apply list_items_In in Hitem.
    destruct Hitem as (p & Hp & ->). apply In_firstn_In in Hp.
    destruct (list_rows_In _ _ _ _ Hp) as [Hin _].
    exists p. split; [exact Hin | ]. split; [reflexivity | ].
    split; [reflexivity | apply feedback_item_author].
  - intros id item. unfold postRouter.byId, Post_findUnique.
    destruct (post_by_id db id) as [p | ] eqn:E; cbn; [ | discriminate].
    intros [= <-]. destruct (post_by_id_some _ _ _ E) as [Hin Hid].
    split; [exact Hid | ]. exists p. split; [exact Hin | ].
    split; [exact Hid | ]. split; [reflexivity | ].
    apply (feedback_item_author db u p).
Qed.

(** X5: an empty cursor is no cursor, and a cursor that is the
    identifier of no post gives an empty page without [nextCursor]. *)
Theorem list_cursor_edges :
  forall (db : Db) (sessionUserId : string) (filter : Filter.t)
         (order : SortOrder) (limit : option nat),
    postRouter.list db sessionUserId
      (ListPostsInput.mk filter order limit (Some ""))
    = postRouter.list db sessionUserId
        (ListPostsInput.mk filter order limit None)
    /\ (forall c,
           c <> "" ->
           (forall p, In p (posts db) -> Post.id p <> c) ->
           postRouter.list db sessionUserId
             (ListPostsInput.mk filter order limit (Some c))
           = ListOutput.mk [] None).
Proof.
  intros db u f o limit. split; [reflexivity | ].
  intros c Hc Hnone. rewrite list_page.
  assert (Hrows : list_rows db u (ListPostsInput.mk f o limit (Some c)) = []).
  { unfold list_rows, postRouter.list_args, Post_candidates. cbn.
    unfold truthy. apply String.eqb_neq in Hc. rewrite Hc. cbn.
    apply from_cursor_none. intros p Hp.
    apply orderBy_In, filter_In in Hp. now apply Hnone. }
  rewrite Hrows, firstn_nil. cbn.
  now destruct (effective_limit (ListPostsInput.mk f o limit (Some c))).
Qed.

Lemma list_cursor_edges_witness :
  postRouter.list example_db "u2"
    (ListPostsInput.mk Filter.all asc None (Some "Z"))
  = ListOutput.mk [] None.
Proof.
  apply (list_cursor_edges example_db "u2" Filter.all asc None).
  - discriminate.
  - cbn. intros p [<- | [<- | [<- | []]]]; discriminate.
Defined.

Lemma post_matches_empty (db : Db) (p : Post.t) :
  post_matches db PostWhereInput.empty p = true.
Proof. reflexivity. Qed.

(** X6: with the filter [all], no cursor and a limit that is not
    below the number of posts, [list] returns every post of the store
    in one page, the hidden and the unpublished ones too, and no
    [nextCursor]. *)
Theorem list_all_returns_every_post :
  forall (db : Db) (sessionUserId : string) (order : SortOrder)
         (limit : option nat),
    length (posts db) <= match limit with Some n => n | None => 50 end ->
    let response :=
      postRouter.list db sessionUserId
        (ListPostsInput.mk Filter.all order limit None) in
    ListOutput.nextCursor response = None
    /\ Permutation (ListOutput.items response)
                   (map (feedback_item db sessionUserId) (posts db))
    /\ forall p, In p (posts db) ->
                 In (feedback_item db sessionUserId p)
                    (ListOutput.items response).
Proof.
  intros db u o limit Hlen response.
  assert (Hrows : Permutation
                    (list_rows db u (ListPostsInput.mk Filter.all o limit None))
                    (posts db)).
  { unfold list_rows, Post_candidates. cbn.
    eapply Permutation_trans; [apply orderBy_perm | ].
    rewrite filter_all_true; [reflexivity | ].
    intros p _. apply (post_matches_empty db p). }
  assert (Hitems : Permutation (ListOutput.items response)
                               (map (feedback_item db u) (posts db))).
  { subst response. rewrite list_page. cbn [ListOutput.items].
    rewrite <- Permutation_rev. apply Permutation_map.
    rewrite firstn_all2; [exact Hrows | ].
    rewrite (Permutation_length Hrows). exact Hlen. }
  split; [ | split].
  - subst response. rewrite list_page. cbn [ListOutput.nextCursor].
    replace (nth_error _ _) with (@None Post.t); [reflexivity | ].
    symmetry. apply nth_error_None.
    rewrite (Permutation_length Hrows). exact Hlen.
  - exact Hitems.
  - intros p Hp. apply (Permutation_in _ (Permutation_sym Hitems)).
    now apply in_map.
Qed.

Lemma list_all_returns_every_post_witness :
  In (feedback_item hidden_db "u2" (example_post "H" 1 false true))
     (ListOutput.items
        (postRouter.list hidden_db "u2"
           (ListPostsInput.mk Filter.all asc None None))).
Proof.
  apply (list_all_returns_every_post hidden_db "u2" asc None).
  - cbn. lia.
  - cbn. tauto.
Defined.

(** ** How the filters divide the posts *)

Lemma unpaginated_filter_rows (db : Db) (u : string) (f : Filter.t)
  (o : SortOrder) :
  unpaginated db u f o = map (feedback_item db u) (filter_rows db u f o).
Proof. unfold unpaginated, Post_findMany. cbn. now rewrite map_map. Qed.

Lemma matches_unreplied (db : Db) (u : string) (p : Post.t) :
  post_matches db (postRouter.getFilterWhereClause u Filter.unreplied) p
  = negb (post_matches db (postRouter.getFilterWhereClause u Filter.replied) p).
Proof. reflexivity. Qed.

Lemma matches_unrepliedByMe (db : Db) (u : string) (p : Post.t) :
  post_matches db (postRouter.getFilterWhereClause u Filter.unrepliedByMe) p
  = negb (post_matches db
            (postRouter.getFilterWhereClause u Filter.repliedByMe) p).
Proof. reflexivity. Qed.

Lemma matches_repliedByMe_replied (db : Db) (u : string) (p : Post.t) :
  post_matches db (postRouter.getFilterWhereClause u Filter.repliedByMe) p
  = true ->
  post_matches db (postRouter.getFilterWhereClause u Filter.replied) p = true.
Proof.
  cbn. rewrite !existsb_exists. intros (c & Hc & _). now exists c.
Qed.

Lemma filter_rows_split (db : Db) (u : string) (o : SortOrder)
  (yes no : Filter.t) :
  (forall p,
      post_matches db (postRouter.getFilterWhereClause u no) p
      = negb (post_matches db (postRouter.getFilterWhereClause u yes) p)) ->
  Permutation (filter_rows db u yes o ++ filter_rows db u no o)
              (filter_rows db u Filter.all o).
Proof.
  intros Hno. unfold filter_rows.
  rewrite !orderBy_perm.
  rewrite (filter_ext _ _ Hno).
  rewrite (filter_all_true
             (post_matches db (postRouter.getFilterWhereClause u Filter.all)))
    by (intros p _; apply (post_matches_empty db p)).
  apply filter_split_perm.
Qed.

(** X7: the posts listed as replied and those listed as unreplied are,
    together, the posts listed under [all], and so are the posts
    replied by the session user and those not replied by them; a post
    replied by the session user is a replied post; with distinct
    identifiers no post is both replied and unreplied. *)
Theorem filters_divide_the_posts :
  forall (db : Db) (sessionUserId : string) (order : SortOrder),
    Permutation
      (unpaginated db sessionUserId Filter.replied order
       ++ unpaginated db sessionUserId Filter.unreplied order)
      (unpaginated db sessionUserId Filter.all order)
    /\ Permutation
         (unpaginated db sessionUserId Filter.repliedByMe order
          ++ unpaginated db sessionUserId Filter.unrepliedByMe order)
         (unpaginated db sessionUserId Filter.all order)
    /\ incl (unpaginated db sessionUserId Filter.repliedByMe order)
            (unpaginated db sessionUserId Filter.replied order)
    /\ (NoDup (map Post.id (posts db)) ->
        forall a b,
          In a (unpaginated db sessionUserId Filter.replied order) ->
          In b (unpaginated db sessionUserId Filter.unreplied order) ->
          FeedbackItem.id a <> FeedbackItem.id b).
Proof.
  intros db u o. rewrite !unpaginated_filter_rows.
  split; [ | split; [ | split]].
  - rewrite <- map_app. apply Permutation_map, filter_rows_split.
    apply matches_unreplied.
  - rewrite <- map_app. apply Permutation_map, filter_rows_split.
    apply matches_unrepliedByMe.
  - intros item Hitem. apply in_map_iff in Hitem.
    destruct Hitem as (p & <- & Hp). apply in_map.
    unfold filter_rows in *. rewrite orderBy_In, filter_In in *.
    destruct Hp as [Hin Hm]. split; [exact Hin | ].
    now apply matches_repliedByMe_replied.
  - intros Hids a b Ha Hb Heq.
    apply in_map_iff in Ha, Hb.
    destruct Ha as (p & <- & Hp). destruct Hb as (q & <- & Hq).
    unfold filter_rows in Hp, Hq. rewrite orderBy_In, filter_In in Hp, Hq.
    destruct Hp as [Hp Hmp]. destruct Hq as [Hq Hmq].
    cbn in Heq.
    assert (Hpq : p = q).
    { pose proof (post_by_id_unique db p Hids Hp) as H1.
      pose proof (post_by_id_unique db q Hids Hq) as H2.
      rewrite Heq in H1. congruence. }
    subst q. rewrite matches_unreplied, Hmp in Hmq. discriminate.
Qed.

(** ** Marking a post read *)

Lemma user_by_id_none (db : Db) (id : string) :
  user_by_id db id = None <-> forall u, In u (users db) -> User.id u <> id.
Proof.
  unfold user_by_id. split.
  - intros H u Hin E. pose proof (find_none _ _ H u Hin) as Hf.
    cbn in Hf. apply String.eqb_neq in Hf. contradiction.
  - intros H. destruct (find _ (users db)) as [u | ] eqn:E; [ | reflexivity].
    apply find_some in E. destruct E as [Hin E].
    apply String.eqb_eq in E. now apply H in Hin.
Qed.

Lemma readPosts_by_key_none (db : Db) (postId userId : string) :
  readPosts_by_key db postId userId = None
  <-> forall m, In m (readPosts db) -> marker_key m <> (postId, userId).
Proof.
  unfold readPosts_by_key. fold (has_key postId userId). split.
  - intros H m Hin E. pose proof (find_none _ _ H m Hin) as Hf.
    apply has_key_iff in E. congruence.
  - intros H.
    destruct (find (has_key postId userId) (readPosts db)) as [m | ] eqn:E;
      [ | reflexivity].
    apply find_some in E. destruct E as [Hin E].
    apply has_key_iff in E. now apply H in Hin.
Qed.

Lemma readPosts_by_key_some (db : Db) (postId userId : string)
  (m : ReadPosts.t) :
  readPosts_by_key db postId userId = Some m ->
  In m (readPosts db) /\ marker_key m = (postId, userId).
Proof.
  unfold readPosts_by_key. fold (has_key postId userId). intros H.
  apply find_some in H. destruct H as [Hin E].
  apply has_key_iff in E. now split.
Qed.

(** X8: [setRead] fails exactly when the user has no marker on the
    post yet and the user or the post is not in the store; the failure
    is the store's, for a record that was not found. *)
Theorem setRead_failure :
  forall (db : Db) (now : Z) (sessionUserId id : string) (e : Error),
    postRouter.setRead db now sessionUserId id = Throw e
    <-> e = StoreError RecordNotFound
        /\ (forall m, In m (readPosts db) ->
                      marker_key m <> (id, sessionUserId))
        /\ ((forall u, In u (users db) -> User.id u <> sessionUserId)
            \/ (forall p, In p (posts db) -> Post.id p <> id)).
Proof.
  intros db now u id e.
  rewrite <- readPosts_by_key_none, <- user_by_id_none, <- post_by_id_none.
  unfold postRouter.setRead, ReadPosts_upsert.
  destruct (readPosts_by_key db id u) as [m | ].
  - split; [discriminate | ]. intros (_ & H & _). discriminate.
  - destruct (user_by_id db u) as [usr | ].
    + destruct (post_by_id db id) as [p | ].
      * split; [discriminate | ]. intros (_ & _ & [H | H]); discriminate.
      * split; [intros [= <-]; tauto | ]. now intros (-> & _).
    + split; [intros [= <-]; tauto | ]. now intros (-> & _).
Qed.

(** X9: a successful [setRead] returns a marker of the session user on
    the requested post that is in the store afterwards; it leaves the
    users, the posts and the comments as they were, keeps every marker
    there was, adds the returned one at most, and does not change the
    number of markers of any other pair of a user and a post. *)
Theorem setRead_frame :
  forall (db db' : Db) (now : Z) (sessionUserId id : string)
         (m : ReadPosts.t),
    postRouter.setRead db now sessionUserId id = Ok (m, db') ->
    users db' = users db
    /\ posts db' = posts db
    /\ comments db' = comments db
    /\ In m (readPosts db')
    /\ marker_key m = (id, sessionUserId)
    /\ (readPosts db' = readPosts db \/ readPosts db' = readPosts db ++ [m])
    /\ (forall userId postId,
           (postId, userId) <> (id, sessionUserId) ->
           marker_count db' userId postId = marker_count db userId postId).
Proof.
  intros db db' now u id m H. apply setRead_cases in H.
  destruct H as [[Hsome ->] | (Hnone & Hkey & ->)].
  - destruct (readPosts_by_key_some _ _ _ _ Hsome) as [Hin Hkey].
    repeat split; try assumption. now left.
  - cbn. repeat split; try assumption.
    + apply in_or_app. right. now left.
    + now right.
    + intros v pid Hne. unfold marker_count. cbn.
      rewrite filter_app, length_app. cbn.
      destruct (has_key pid v m) eqn:E; [ | cbn; lia].
      apply has_key_iff in E. congruence.
Qed.

Lemma setRead_frame_witness :
  exists m db',
    postRouter.setRead example_db 8 "u2" "B" = Ok (m, db')
    /\ posts db' = posts example_db
    /\ marker_key m = ("B", "u2")
    /\ marker_count db' "u2" "A" = marker_count example_db "u2" "A".
Proof.
  eexists. eexists. split; [reflexivity | ].
  destruct (setRead_frame example_db _ 8 "u2" "B" _ eq_refl)
    as (_ & Hposts & _ & _ & Hkey & _ & Hcount).
  split; [exact Hposts | ]. split; [exact Hkey | ].
  apply Hcount. discriminate.
Defined.

Lemma unreadCount_counts (db : Db) (u : string) :
  postRouter.unreadCount db u
  = UnreadCountOutput.mk
      (Z.of_nat (visible_count db) - Z.of_nat (read_count db u))
      (Z.of_nat (visible_count db)).
Proof.
  assert (Hv : Post_count db (PostWhereInput.mk None None (Some false)
                                                None None)
               = visible_count db).
  { unfold Post_count, visible_count. f_equal. apply filter_ext.
    intros p. cbn. now destruct (Post.hidden p). }
  unfold postRouter.unreadCount. now rewrite Hv.
Qed.

(** X10: a successful [setRead] leaves every user's [totalCount] as it
    was; it takes one off the session user's [unreadCount] when the
    user had no marker on the post, leaves it as it was when the user
    had one, and never changes another user's [unreadCount]. *)
Theorem setRead_then_unreadCount :
  forall (db db' : Db) (now : Z) (sessionUserId id : string)
         (m : ReadPosts.t),
    postRouter.setRead db now sessionUserId id = Ok (m, db') ->
    (forall v,
        UnreadCountOutput.totalCount (postRouter.unreadCount db' v)
        = UnreadCountOutput.totalCount (postRouter.unreadCount db v))
    /\ (marker_count db sessionUserId id = 0 ->
        UnreadCountOutput.unreadCount (postRouter.unreadCount db' sessionUserId)
        = (UnreadCountOutput.unreadCount
             (postRouter.unreadCount db sessionUserId) - 1)%Z)
    /\ (marker_count db sessionUserId id <> 0 ->
        postRouter.unreadCount db' sessionUserId
        = postRouter.unreadCount db sessionUserId)
    /\ (forall v, v <> sessionUserId ->
                  postRouter.unreadCount db' v = postRouter.unreadCount db v).
Proof.
  intros db db' now u id m H. apply setRead_cases in H.
  destruct H as [[Hsome ->] | (Hnone & Hkey & ->)].
  - split; [reflexivity | ]. split; [ | split; reflexivity].
    intros H0. exfalso. unfold marker_count in H0.
    destruct (readPosts_by_key_some _ _ _ _ Hsome) as [Hin Hk].
    apply has_key_iff in Hk.
    assert (Hf : In m (filter (has_key id u) (readPosts db)))
      by (apply filter_In; now split).
    destruct (filter (has_key id u) (readPosts db)); [contradiction | ].
    discriminate.
  - assert (Hu : ReadPosts.userId m = u)
      by (unfold marker_key in Hkey; congruence).
    assert (Hread : forall v,
               read_count (set_readPosts db (readPosts db ++ [m])) v
               = read_count db v + (if String.eqb u v then 1 else 0)).
    { intros v. unfold read_count. cbn.
      rewrite filter_app, length_app. cbn. rewrite Hu.
      now destruct (String.eqb u v). }
    assert (Hvis : visible_count (set_readPosts db (readPosts db ++ [m]))
                   = visible_count db) by reflexivity.
    split; [ | split; [ | split]].
    + intros v. rewrite !unreadCount_counts.
      cbn [UnreadCountOutput.totalCount]. now rewrite Hvis.
    + intros _. rewrite !unreadCount_counts.
      cbn [UnreadCountOutput.unreadCount].
      rewrite Hvis, Hread, String.eqb_refl. lia.
    + intros H0. exfalso. apply H0. unfold marker_count.
      unfold readPosts_by_key in Hnone. fold (has_key id u) in Hnone.
      rewrite filter_all_false; [reflexivity | ].
      intros x Hx. exact (find_none _ _ Hnone x Hx).
    + intros v Hv. rewrite !unreadCount_counts. rewrite Hvis, Hread.
      apply not_eq_sym, String.eqb_neq in Hv. rewrite Hv.
      now rewrite Nat.add_0_r.
Qed.

Lemma setRead_then_unreadCount_witness :
  exists m db',
    postRouter.setRead example_db 8 "u2" "B" = Ok (m, db')
    /\ UnreadCountOutput.unreadCount (postRouter.unreadCount db' "u2")
       = (UnreadCountOutput.unreadCount
            (postRouter.unreadCount example_db "u2") - 1)%Z
    /\ postRouter.unreadCount db' "u1" = postRouter.unreadCount example_db "u1".
Proof.
  eexists. eexists. split; [reflexivity | ].
  destruct (setRead_then_unreadCount example_db _ 8 "u2" "B" _ eq_refl)
    as (_ & Hnew & _ & Hother).
  split; [now apply Hnew | ]. apply Hother. discriminate.
Defined.

Lemma matches_unread (db : Db) (v : string) (p : Post.t) :
  post_matches db (postRouter.getFilterWhereClause v Filter.unread) p
  = negb (existsb (readPosts_matches (ReadPostsWhereInput.mk (Some v)))
                  (post_readBy db p)).
Proof. cbn. now rewrite !andb_true_r. Qed.

Lemma post_readBy_added (db : Db) (m : ReadPosts.t) (p : Post.t) :
  post_readBy (set_readPosts db (readPosts db ++ [m])) p
  = post_readBy db p
    ++ (if String.eqb (ReadPosts.postId m) (Post.id p) then [m] else []).
Proof. unfold post_readBy. cbn. now rewrite filter_app. Qed.

(** X11: after a successful [setRead] the post no longer passes the
    filter [unread] of the session user, and [list] with that filter
    does not return it to them; whether any other post passes the
    filter, or the post another user's, is as before, and so is every
    other filter. *)
Theorem setRead_then_unread_filter :
  forall (db db' : Db) (now : Z) (sessionUserId id : string)
         (m : ReadPosts.t),
    postRouter.setRead db now sessionUserId id = Ok (m, db') ->
    (forall p,
        Post.id p = id ->
        post_matches db'
          (postRouter.getFilterWhereClause sessionUserId Filter.unread) p
        = false)
    /\ (forall v p,
           v <> sessionUserId \/ Post.id p <> id ->
           post_matches db' (postRouter.getFilterWhereClause v Filter.unread) p
           = post_matches db (postRouter.getFilterWhereClause v Filter.unread) p)
    /\ (forall v f p,
           f <> Filter.unread ->
           post_matches db' (postRouter.getFilterWhereClause v f) p
           = post_matches db (postRouter.getFilterWhereClause v f) p)
    /\ (forall input item,
           ListPostsInput.filter input = Filter.unread ->
           In item
              (ListOutput.items (postRouter.list db' sessionUserId input)) ->
           FeedbackItem.id item <> id).
Proof.
  intros db db' now u id m H.
  assert (Hread : forall p,
             Post.id p = id ->
             post_matches db' (postRouter.getFilterWhereClause u Filter.unread) p
             = false).
  { intros p Hp. rewrite matches_unread. apply negb_false_iff.
    apply existsb_exists.
    assert (Hm : In m (readPosts db') /\ marker_key m = (id, u)).
    { apply setRead_cases in H.
      destruct H as [[Hsome ->] | (_ & Hkey & ->)].
      - now apply readPosts_by_key_some.
      - split; [ | exact Hkey]. cbn. apply in_or_app. right. now left. }
    destruct Hm as [Hin Hkey]. unfold marker_key in Hkey.
    injection Hkey as Hpid Huid.
    exists m. split.
    - apply filter_In. split; [exact Hin | ].
      apply String.eqb_eq. congruence.
    - cbn. now apply String.eqb_eq. }
  split; [exact Hread | ]. split; [ | split].
  - intros v p Hne. rewrite !matches_unread. f_equal.
    apply setRead_cases in H.
    destruct H as [[_ ->] | (_ & Hkey & ->)]; [reflexivity | ].
    rewrite post_readBy_added, existsb_app.
    unfold marker_key in Hkey. injection Hkey as Hpid Huid.
    destruct (String.eqb (ReadPosts.postId m) (Post.id p)) eqn:E; cbn;
      [ | apply orb_false_r].
    apply String.eqb_eq in E. rewrite Huid.
    destruct Hne as [Hv | Hp]; [ | congruence].
    apply not_eq_sym, String.eqb_neq in Hv. rewrite Hv. apply orb_false_r.
  - intros v f p Hf. apply setRead_cases in H.
    destruct H as [[_ ->] | (_ & _ & ->)]; [reflexivity | ].
    destruct f; try reflexivity. contradiction.
  - intros input item Hf Hitem. apply list_items_In in Hitem.
    destruct Hitem as (p & Hp & ->). apply In_firstn_In in Hp.
    destruct (list_rows_In _ _ _ _ Hp) as [_ Hm].
    rewrite Hf in Hm. cbn [feedback_item FeedbackItem.id processFeedbackItem
                           withCommentsPostSelect with_comments
                           defaultPostSelect PostPayload.id].
    intros Hid. rewrite (Hread p Hid) in Hm. discriminate.
Qed.

Lemma setRead_then_unread_filter_witness :
  exists m db',
    postRouter.setRead example_db 8 "u2" "B" = Ok (m, db')
    /\ post_matches db'
         (postRouter.getFilterWhereClause "u2" Filter.unread)
         (example_post "B" 2 false false) = false
    /\ post_matches db'
         (postRouter.getFilterWhereClause "u2" Filter.unread)
         (example_post "C" 3 false false)
       = post_matches example_db
           (postRouter.getFilterWhereClause "u2" Filter.unread)
           (example_post "C" 3 false false).
Proof.
  eexists. eexists. split; [reflexivity | ].
  destruct (setRead_then_unread_filter example_db _ 8 "u2" "B" _ eq_refl)
    as (Hread & Hother & _).
  split; [now apply Hread | ]. apply Hother. right. discriminate.
Defined.

(** ** Who has read a post *)

Lemma readBy_lookup (db : Db) (v : string) (p : Post.t) (u : string)
  (e : ReadByPayload.t) :
  obj_get u (FeedbackItem.readBy (feedback_item db v p)) = Some e ->
  exists m, In m (readPosts db)
            /\ ReadPosts.postId m = Post.id p
            /\ ReadPosts.userId m = u
            /\ e = select_readBy m.
Proof.
  unfold feedback_item. cbn [processFeedbackItem FeedbackItem.readBy].
  rewrite keyBy_get. intros H. apply find_some in H.
  destruct H as [Hin E]. apply String.eqb_eq in E.
  apply in_rev in Hin. cbn in Hin. apply in_map_iff in Hin.
  destruct Hin as (m & <- & Hm).
  apply orderBy_In in Hm. apply filter_In in Hm. destruct Hm as [Hm Hp].
  apply String.eqb_eq in Hp.
  exists m. repeat split; assumption.
Qed.

Lemma readBy_lookup_found (db : Db) (v : string) (p : Post.t)
  (m : ReadPosts.t) :
  In m (readPosts db) -> ReadPosts.postId m = Post.id p ->
  exists e,
    obj_get (ReadPosts.userId m) (FeedbackItem.readBy (feedback_item db v p))
    = Some e.
Proof.
  intros Hin Hp.
  unfold feedback_item. cbn [processFeedbackItem FeedbackItem.readBy].
  rewrite keyBy_get.
  apply (find_is_some _ _ (select_readBy m)).
  - apply in_rev. rewrite rev_involutive. cbn. apply in_map.
    apply orderBy_In, filter_In. split; [exact Hin | ].
    now apply String.eqb_eq.
  - apply String.eqb_refl.
Qed.

(** X12: in an item that [list] or [byId] returns for a post, the
    [readBy] mapping has an entry under a user's identifier exactly
    when that user has a read-marker on the post, and the entry is
    that of a marker of the user on the post: it carries the user's
    identifier and name. *)
Theorem readBy_answers_who_read :
  forall (db : Db) (sessionUserId : string) (p : Post.t) (userId : string),
    let readBy :=
      FeedbackItem.readBy (feedback_item db sessionUserId p) in
    ((exists e, obj_get userId readBy = Some e)
     <-> read_marker_exists db userId p)
    /\ (forall e,
           obj_get userId readBy = Some e ->
           exists m, In m (readPosts db)
                     /\ ReadPosts.postId m = Post.id p
                     /\ ReadPosts.userId m = userId
                     /\ ReaderPayload.id (ReadByPayload.user e) = userId
                     /\ ReaderPayload.name (ReadByPayload.user e)
                        = User.name (ReadPosts.user m)).
Proof.
  intros db v p u readBy. subst readBy. split.
  - split.
    + intros (e & He). apply readBy_lookup in He.
      destruct He as (m & Hin & Hp & Hu & _). now exists m.
    + intros (m & Hin & Hp & <-). now apply readBy_lookup_found.
  - intros e He. apply readBy_lookup in He.
    destruct He as (m & Hin & Hp & Hu & ->).
    exists m. repeat split; assumption.
Qed.

(** X13: once [setRead] has succeeded for a post of the store, [byId]
    returns that post to any user with an entry of the session user
    in its [readBy] mapping. *)
Theorem setRead_then_byId :
  forall (db db' : Db) (now : Z) (sessionUserId id : string)
         (m : ReadPosts.t) (p : Post.t),
    postRouter.setRead db now sessionUserId id = Ok (m, db') ->
    post_by_id db id = Some p ->
    forall viewerId,
    exists item e,
      postRouter.byId db' viewerId id = Ok item
      /\ FeedbackItem.id item = id
      /\ obj_get sessionUserId (FeedbackItem.readBy item) = Some e
      /\ ReaderPayload.id (ReadByPayload.user e) = sessionUserId.
Proof.
  intros db db' now u id m p H Hp v.
  assert (Hm : In m (readPosts db') /\ marker_key m = (id, u)
               /\ posts db' = posts db).
  { apply setRead_cases in H.
    destruct H as [[Hsome ->] | (_ & Hkey & ->)].
    - destruct (readPosts_by_key_some _ _ _ _ Hsome). now repeat split.
    - split; [ | now split]. cbn. apply in_or_app. right. now left. }
  destruct Hm as (Hin & Hkey & Hposts).
  unfold marker_key in Hkey. injection Hkey as Hpid Huid.
  destruct (post_by_id_some _ _ _ Hp) as [_ Hid].
  assert (Hp' : post_by_id db' id = Some p)
    by (unfold post_by_id in *; now rewrite Hposts).
  destruct (readBy_lookup_found db' v p m Hin) as [e He]; [congruence | ].
  rewrite Huid in He.
  exists (feedback_item db' v p), e.
  unfold postRouter.byId, Post_findUnique. rewrite Hp'. cbn [option_map].
  split; [reflexivity | ]. split; [exact Hid | ]. split; [exact He | ].
  apply readBy_lookup in He. destruct He as (m' & _ & _ & Hu & ->).
  exact Hu.
Qed.

Lemma setRead_then_byId_witness :
  exists item e,
    postRouter.byId
      (set_readPosts example_db
         (readPosts example_db ++ [ReadPosts.mk example_reader "B" 8 8]))
      "u1" "B" = Ok item
    /\ FeedbackItem.id item = "B"
    /\ obj_get "u2" (FeedbackItem.readBy item) = Some e
    /\ ReaderPayload.id (ReadByPayload.user e) = "u2".
Proof.
  apply (setRead_then_byId example_db _ 8 "u2" "B"
           (ReadPosts.mk example_reader "B" 8 8)
           (example_post "B" 2 false false));
    reflexivity.
Defined.

(** ** Adding a post *)

Lemma add_cases (db db' : Db) (g : Generated.t) (u : string)
  (input : AddPostInput.t) (payload : PostPayload.t) :
  postRouter.add db g u input = Ok (payload, db') ->
  exists author,
    user_by_id db u = Some author
    /\ post_by_id db (Generated.id g) = None
    /\ db' = set_posts db (posts db ++ [created_row g input author])
    /\ payload = defaultPostSelect db' (created_row g input author).
Proof.
  unfold postRouter.add, Post_create.
  destruct (user_by_id db u) as [author | ]; [ | discriminate].
  destruct (post_by_id db (Generated.id g)) as [p | ]; [discriminate | ].
  intros [= <- <-]. exists author. repeat split.
Qed.

Lemma post_by_id_added (db : Db) (row : Post.t) (id : string) :
  post_by_id (set_posts db (posts db ++ [row])) id
  = match post_by_id db id with
    | Some p => Some p
    | None => if String.eqb (Post.id row) id then Some row else None
    end.
Proof. unfold post_by_id. cbn. now rewrite find_over_app. Qed.

(** X14: [add] fails exactly when the session user is not in the
    store, for a record that was not found, or when the user is there
    and the identifier generated for the post is already that of a
    post, for a unique constraint. *)
Theorem add_failure :
  forall (db : Db) (g : Generated.t) (sessionUserId : string)
         (input : AddPostInput.t) (e : Error),
    postRouter.add db g sessionUserId input = Throw e
    <-> ((forall u, In u (users db) -> User.id u <> sessionUserId)
         /\ e = StoreError RecordNotFound)
        \/ ((exists u, In u (users db) /\ User.id u = sessionUserId)
            /\ (exists p, In p (posts db) /\ Post.id p = Generated.id g)
            /\ e = StoreError UniqueConstraintFailed).
Proof.
  intros db g u input e. unfold postRouter.add, Post_create.
  destruct (user_by_id db u) as [author | ] eqn:Eu.
  - destruct (user_by_id_some _ _ _ Eu) as [Hin Hid].
    destruct (post_by_id db (Generated.id g)) as [p | ] eqn:Ep.
    + destruct (post_by_id_some _ _ _ Ep) as [Hp Hpid]. split.
      * intros [= <-]. right.
        split; [now exists author | ]. split; [now exists p | reflexivity].
      * intros [[Hnone _] | (_ & _ & ->)]; [ | reflexivity].
        now apply Hnone in Hin.
    + split; [discriminate | ].
      intros [[Hnone _] | (_ & (p & Hp & Hpid) & _)].
      * now apply Hnone in Hin.
      * exfalso. exact (proj1 (post_by_id_none db _) Ep p Hp Hpid).
  - pose proof (proj1 (user_by_id_none db u) Eu) as Hnone. split.
    + intros [= <-]. now left.
    + intros [[_ ->] | ((usr & Hin & Hid) & _)]; [reflexivity | ].
      now apply Hnone in Hin.
Qed.

(** X15: a successful [add] puts one post, with the generated
    identifier, behind the posts there were and leaves the users, the
    comments and the read-markers as they were; distinct identifiers
    stay distinct, and [byId] answers for any other identifier what it
    answered before. *)
Theorem add_frame :
  forall (db db' : Db) (g : Generated.t) (sessionUserId : string)
         (input : AddPostInput.t) (payload : PostPayload.t),
    postRouter.add db g sessionUserId input = Ok (payload, db') ->
    users db' = users db
    /\ comments db' = comments db
    /\ readPosts db' = readPosts db
    /\ (exists row, posts db' = posts db ++ [row]
                    /\ Post.id row = Generated.id g
                    /\ Post.authorId row = sessionUserId)
    /\ (NoDup (map Post.id (posts db)) -> NoDup (map Post.id (posts db')))
    /\ (forall viewerId id,
           id <> Generated.id g ->
           postRouter.byId db' viewerId id = postRouter.byId db viewerId id).
Proof.
  intros db db' g u input payload H.
  destruct (add_cases _ _ _ _ _ _ H) as (author & Hu & Hfresh & -> & _).
  destruct (user_by_id_some _ _ _ Hu) as [_ Hid].
  split; [reflexivity | ]. split; [reflexivity | ]. split; [reflexivity | ].
  split; [ | split].
  - exists (created_row g input author). repeat split. exact Hid.
  - intros Hnd. cbn. rewrite map_app. cbn.
    apply NoDup_rev in Hnd. rewrite <- (rev_involutive (_ ++ _)).
    apply NoDup_rev. rewrite rev_app_distr. cbn.
    constructor; [ | exact Hnd].
    rewrite <- in_rev, in_map_iff. intros (p & Hp & Hin).
    exact (proj1 (post_by_id_none db _) Hfresh p Hin Hp).
  - intros v id Hne. unfold postRouter.byId, Post_findUnique.
    rewrite post_by_id_added.
    destruct (post_by_id db id) as [p | ]; [reflexivity | ].
    cbn [created_row Post.id].
    apply not_eq_sym, String.eqb_neq in Hne. now rewrite Hne.
Qed.

Lemma add_frame_witness :
  exists payload db',
    postRouter.add example_db example_generated "u1" example_input
    = Ok (payload, db')
    /\ readPosts db' = readPosts example_db
    /\ NoDup (map Post.id (posts db'))
    /\ postRouter.byId db' "u2" "A" = postRouter.byId example_db "u2" "A".
Proof.
  eexists. eexists. split; [reflexivity | ].
  destruct (add_frame example_db _ example_generated "u1" example_input _
              eq_refl) as (_ & _ & Hmarkers & _ & Hids & HbyId).
  split; [exact Hmarkers | ]. split.
  - apply Hids. cbn. repeat constructor; cbn; intuition discriminate.
  - apply HbyId. discriminate.
Defined.

(** X16: the post a successful [add] created is the one [byId]
    returns for the generated identifier, to any viewer: with the
    title, the content, the creation time and the anonymity flag that
    [add] returned, and, when it is anonymous, with the placeholder in
    the place of the author's name and image that [add] returned; the
    author reads ['Anonymous (you)'], any other viewer ['Anonymous']. *)
Theorem add_then_byId :
  forall (db db' : Db) (g : Generated.t) (sessionUserId : string)
         (input : AddPostInput.t) (payload : PostPayload.t),
    postRouter.add db g sessionUserId input = Ok (payload, db') ->
    forall viewerId,
    exists item,
      postRouter.byId db' viewerId (Generated.id g) = Ok item
      /\ FeedbackItem.id item = Generated.id g
      /\ FeedbackItem.title item = AddPostInput.title input
      /\ FeedbackItem.content item = AddPostInput.content input
      /\ FeedbackItem.contentHtml item = AddPostInput.contentHtml input
      /\ FeedbackItem.createdAt item = PostPayload.createdAt payload
      /\ FeedbackItem.anonymous item = PostPayload.anonymous payload
      /\ FeedbackItem._count item = PostPayload._count payload
      /\ (PostPayload.anonymous payload = false ->
          FeedbackItem.author item = PostPayload.author payload)
      /\ (PostPayload.anonymous payload = true ->
          FeedbackItem.author item
          = AuthorPayload.mk None
              (Some (if String.eqb sessionUserId viewerId
                     then "Anonymous (you)" else "Anonymous"))).
Proof.
  intros db db' g u input payload H v.
  destruct (add_cases _ _ _ _ _ _ H) as (author & Hu & Hfresh & -> & ->).
  destruct (user_by_id_some _ _ _ Hu) as [_ Hid].
  set (row := created_row g input author).
  exists (feedback_item (set_posts db (posts db ++ [row])) v row).
  split.
  - unfold postRouter.byId, Post_findUnique.
    rewrite post_by_id_added, Hfresh.
    change (Post.id row) with (Generated.id g).
    now rewrite String.eqb_refl.
  - repeat (split; [reflexivity | ]).
    rewrite feedback_item_author. unfold shown_author.
    change (PostPayload.anonymous (defaultPostSelect _ row))
      with (Post.anonymous row).
    change (Post.authorId row) with (User.id author). rewrite Hid.
    split; intros Hanon; rewrite Hanon; reflexivity.
Qed.

Lemma add_then_byId_witness :
  exists item,
    postRouter.byId
      (set_posts example_db
         (posts example_db
          ++ [created_row example_generated example_input example_author]))
      "u2" "N" = Ok item
    /\ FeedbackItem.title item = "T"
    /\ FeedbackItem.author item = AuthorPayload.mk None (Some "Anonymous").
Proof.
  destruct (add_then_byId example_db _ example_generated "u1" example_input _
              eq_refl "u2")
    as (item & HbyId & _ & Htitle & _ & _ & _ & _ & _ & _ & Hanon).
  exists item. split; [exact HbyId | ]. split; [exact Htitle | ].
  now apply Hanon.
Defined.

(** X17: a successful [add] raises every user's [totalCount] and
    [unreadCount] by one when the post it created is not hidden, and
    leaves them as they were when it is. *)
Theorem add_then_unreadCount :
  forall (db db' : Db) (g : Generated.t) (sessionUserId : string)
         (input : AddPostInput.t) (payload : PostPayload.t),
    postRouter.add db g sessionUserId input = Ok (payload, db') ->
    exists row,
      posts db' = posts db ++ [row]
      /\ forall v,
          let before := postRouter.unreadCount db v in
          let after := postRouter.unreadCount db' v in
          let one := if Post.hidden row then 0%Z else 1%Z in
          UnreadCountOutput.totalCount after
          = (UnreadCountOutput.totalCount before + one)%Z
          /\ UnreadCountOutput.unreadCount after
             = (UnreadCountOutput.unreadCount before + one)%Z.
Proof.
  intros db db' g u input payload H.
  destruct (add_cases _ _ _ _ _ _ H) as (author & _ & _ & -> & _).
  set (row := created_row g input author).
  exists row. split; [reflexivity | ].
  intros v before after one. subst before after one.
  rewrite !unreadCount_counts.
  assert (Hvis : visible_count (set_posts db (posts db ++ [row]))
                 = visible_count db + (if Post.hidden row then 0 else 1)).
  { unfold visible_count. cbn [posts set_posts].
    rewrite filter_app, length_app. cbn [filter].
    now destruct (Post.hidden row). }
  assert (Hread : read_count (set_posts db (posts db ++ [row])) v
                  = read_count db v) by reflexivity.
  cbn [UnreadCountOutput.totalCount UnreadCountOutput.unreadCount].
  rewrite Hvis, Hread. destruct (Post.hidden row); split; lia.
Qed.

Lemma add_then_unreadCount_witness :
  exists payload db',
    postRouter.add example_db example_generated "u1" example_input
    = Ok (payload, db')
    /\ UnreadCountOutput.totalCount (postRouter.unreadCount db' "u2") = 4%Z
    /\ UnreadCountOutput.unreadCount (postRouter.unreadCount db' "u2") = 3%Z.
Proof.
  eexists. eexists. split; [reflexivity | ].
  destruct (add_then_unreadCount example_db _ example_generated "u1"
              example_input _ eq_refl) as (row & Hposts & Hcount).
  cbn in Hposts. injection Hposts as <-.
  exact (Hcount "u2").
Defined.

(** ** The counter and the filter [unread] *)

Lemma filter_twice {A : Type} (f g : A -> bool) (l : list A) :
  filter f (filter g l) = filter (fun x => g x && f x) l.
Proof.
  induction l as [ | x l IH]; cbn; [reflexivity | ].
  destruct (g x); cbn; [ | exact IH]. destruct (f x); now rewrite IH.
Qed.

Lemma markers_of_user_posts (db : Db) (u : string) :
  markers_unique db ->
  NoDup (map ReadPosts.postId
             (filter (fun m => String.eqb (ReadPosts.userId m) u)
                     (readPosts db))).
Proof.
  intros Hnd. apply (NoDup_map_inv (fun id => (id, u))).
  rewrite map_map. rewrite (map_ext_in _ marker_key).
  - now apply NoDup_map_filter.
  - intros m Hm. apply filter_In in Hm. destruct Hm as [_ Hm].
    apply String.eqb_eq in Hm. unfold marker_key. now rewrite Hm.
Qed.

Lemma read_count_is_read_visible (db : Db) (u : string) :
  markers_unique db ->
  NoDup (map Post.id (posts db)) ->
  (forall m, In m (readPosts db) -> ReadPosts.userId m = u ->
             exists p, In p (posts db) /\ Post.id p = ReadPosts.postId m
                       /\ Post.hidden p = false) ->
  read_count db u
  = length (filter
              (fun p => existsb (readPosts_matches
                                   (ReadPostsWhereInput.mk (Some u)))
                                (post_readBy db p))
              (filter (fun p => negb (Post.hidden p)) (posts db))).
Proof.
  intros Hm Hids Hvis. unfold read_count.
  set (mine := filter _ (readPosts db)).
  set (read := filter _ (filter _ (posts db))).
  rewrite <- (length_map ReadPosts.postId mine), <- (length_map Post.id read).
  apply Permutation_length, NoDup_Permutation.
  - now apply markers_of_user_posts.
  - now apply NoDup_map_filter, NoDup_map_filter.
  - intros id. unfold mine, read. rewrite !in_map_iff. split.
    + intros (m & <- & Hin). apply filter_In in Hin.
      destruct Hin as [Hin Hu]. apply String.eqb_eq in Hu.
      destruct (Hvis m Hin Hu) as (p & Hp & Hpid & Hh).
      exists p. split; [exact Hpid | ].
      apply filter_In. split.
      * apply filter_In. split; [exact Hp | now rewrite Hh].
      * apply existsb_exists. exists m. split.
        -- apply filter_In. split; [exact Hin | ].
           apply String.eqb_eq. now symmetry.
        -- cbn. now apply String.eqb_eq.
    + intros (p & <- & Hin). apply filter_In in Hin.
      destruct Hin as [_ Hex]. apply existsb_exists in Hex.
      destruct Hex as (m & Hm' & Hu). apply filter_In in Hm'.
      destruct Hm' as [Hm' Hp]. apply String.eqb_eq in Hp.
      exists m. split; [exact Hp | ].
      apply filter_In. split; [exact Hm' | exact Hu].
Qed.

(** X18: in a store with distinct post identifiers and at most one
    marker for each pair of a user and a post, where the session
    user's markers are all on posts that are not hidden, [unreadCount]
    is the number of posts that are not hidden and pass the session
    user's filter [unread]; when no post is hidden it is the number of
    posts [list] has under that filter. *)
Theorem unreadCount_counts_unread_posts :
  forall (db : Db) (sessionUserId : string),
    markers_unique db ->
    NoDup (map Post.id (posts db)) ->
    (forall m, In m (readPosts db) ->
               ReadPosts.userId m = sessionUserId ->
               exists p, In p (posts db) /\ Post.id p = ReadPosts.postId m
                         /\ Post.hidden p = false) ->
    UnreadCountOutput.unreadCount (postRouter.unreadCount db sessionUserId)
    = Z.of_nat
        (length
           (filter
              (fun p =>
                 negb (Post.hidden p)
                 && post_matches db
                      (postRouter.getFilterWhereClause sessionUserId
                         Filter.unread) p)
              (posts db)))
    /\ ((forall p, In p (posts db) -> Post.hidden p = false) ->
        forall order,
          UnreadCountOutput.unreadCount
            (postRouter.unreadCount db sessionUserId)
          = Z.of_nat
              (length (unpaginated db sessionUserId Filter.unread order))).
Proof.
  intros db u Hm Hids Hvis.
  assert (Hcount :
            UnreadCountOutput.unreadCount (postRouter.unreadCount db u)
            = Z.of_nat
                (length
                   (filter
                      (fun p =>
                         negb (Post.hidden p)
                         && post_matches db
                              (postRouter.getFilterWhereClause u Filter.unread)
                              p)
                      (posts db)))).
  { rewrite unreadCount_counts. cbn [UnreadCountOutput.unreadCount].
    rewrite (read_count_is_read_visible db u Hm Hids Hvis).
    unfold visible_count.
    set (visible := filter (fun p => negb (Post.hidden p)) (posts db)).
    set (has := fun p =>
                  existsb (readPosts_matches (ReadPostsWhereInput.mk (Some u)))
                          (post_readBy db p)).
    rewrite <- (Permutation_length (filter_split_perm has visible)).
    rewrite length_app. unfold visible. rewrite !filter_twice.
    rewrite (filter_ext
               (fun p => negb (Post.hidden p)
                         && post_matches db
                              (postRouter.getFilterWhereClause u Filter.unread)
                              p)
               (fun p => negb (Post.hidden p) && negb (has p)))
      by (intros p; now rewrite matches_unread).
    lia. }
  split; [exact Hcount | ].
  intros Hnone o. rewrite Hcount. f_equal.
  rewrite unpaginated_filter_rows, length_map.
  unfold filter_rows. rewrite orderBy_length. f_equal.
  apply filter_ext_in. intros p Hp. now rewrite (Hnone p Hp).
Qed.

Lemma unreadCount_counts_unread_posts_witness :
  UnreadCountOutput.unreadCount (postRouter.unreadCount example_db "u2")
  = Z.of_nat (length (unpaginated example_db "u2" Filter.unread asc)).
Proof.
  apply (unreadCount_counts_unread_posts example_db "u2").
  - unfold markers_unique. cbn. constructor; [intros [] | constructor].
  - cbn. repeat constructor; cbn; intuition discriminate.
  - cbn. intros m [<- | []] _.
    exists (example_post "A" 1 true false). cbn. tauto.
  - cbn. intros p [<- | [<- | [<- | []]]]; reflexivity.
Defined.

(** ** Entries under one key *)

(** X19: when several read-markers of a payload carry the same user
    identifier, [processFeedbackItem] keeps under that key the one
    that comes last in the list, and the mapping has no more entries
    than the list. *)
Theorem readBy_later_entry_wins :
  forall (t : PostPayload.t) (sessionUserId : string)
         (front back : list ReadByPayload.t) (e : ReadByPayload.t),
    PostPayload.readBy t = front ++ e :: back ->
    (forall e', In e' back -> reader_id e' <> reader_id e) ->
    let m := FeedbackItem.readBy (processFeedbackItem t sessionUserId) in
    obj_get (reader_id e) m = Some e
    /\ length m <= length (PostPayload.readBy t).
Proof.
  intros t u front back e Hsplit Hback m. subst m.
  cbn [processFeedbackItem FeedbackItem.readBy]. split.
  - rewrite keyBy_get, Hsplit, rev_app_distr. cbn [rev].
    rewrite <- app_assoc, find_over_app.
    replace (find _ (rev back)) with (@None ReadByPayload.t).
    + cbn. now rewrite String.eqb_refl.
    + symmetry. destruct (find _ (rev back)) as [x | ] eqn:E; [ | reflexivity].
      apply find_some in E. destruct E as [Hin E].
      apply in_rev in Hin. apply String.eqb_eq in E.
      now apply Hback in Hin.
  - rewrite <- (length_map fst (keyBy _ _)).
    fold (obj_keys (keyBy (PostPayload.readBy t) reader_id)).
    rewrite keyBy_keys, <- (length_map reader_id (PostPayload.readBy t)).
    apply NoDup_incl_length.
    + apply first_occurrences_from_NoDup.
    + intros k Hk. unfold first_occurrences in Hk.
      now apply first_occurrences_from_In in Hk.
Qed.

Lemma readBy_later_entry_wins_witness :
  obj_get "u2"
    (FeedbackItem.readBy (processFeedbackItem twice_read_payload "u1"))
  = Some (ReadByPayload.mk (ReaderPayload.mk "u2" (Some "Robert")))
  /\ length (FeedbackItem.readBy (processFeedbackItem twice_read_payload "u1"))
     <= 3.
Proof.
  apply (readBy_later_entry_wins twice_read_payload "u1"
           [ReadByPayload.mk (ReaderPayload.mk "u2" (Some "Bob"));
            ReadByPayload.mk (ReaderPayload.mk "u1" (Some "Ann"))]
           []
           (ReadByPayload.mk (ReaderPayload.mk "u2" (Some "Robert")))).
  - reflexivity.
  - intros e' [].
Defined.

(** ** The order of the readers *)

Lemma insert_by_snoc {A : Type} (key : A -> Z) (o : SortOrder) (x m : A)
  (l : list A) :
  precedes o (key x) (key m) = true ->
  insert_by key o x (l ++ [m]) = insert_by key o x l ++ [m].
Proof.
  intros Hx. induction l as [ | y l IH]; cbn.
  - now rewrite Hx.
  - destruct (precedes o (key x) (key y)); [reflexivity | ].
    now rewrite IH.
Qed.

Lemma orderBy_snoc {A : Type} (key : A -> Z) (o : SortOrder) (m : A)
  (l : list A) :
  (forall x, In x l -> precedes o (key x) (key m) = true) ->
  orderBy key o (l ++ [m]) = orderBy key o l ++ [m].
Proof.
  induction l as [ | y l IH]; intros H; [reflexivity | ].
  cbn. fold (orderBy key o (l ++ [m])). fold (orderBy key o l).
  rewrite IH by (intros x Hx; apply H; now right).
  apply insert_by_snoc, H. now left.
Qed.

Lemma keyBy_snoc {V : Type} (f : V -> string) (l : list V) (e : V) :
  keyBy (l ++ [e]) f = obj_set (f e) e (keyBy l f).
Proof. unfold keyBy. now rewrite fold_left_app. Qed.

Lemma keyBy_keys_In {V : Type} (f : V -> string) (l : list V) (k : string) :
  In k (obj_keys (keyBy l f)) <-> In k (map f l).
Proof.
  rewrite keyBy_keys. unfold first_occurrences.
  rewrite first_occurrences_from_In. cbn. tauto.
Qed.

Lemma setRead_created (db db' : Db) (now : Z) (u id : string)
  (m : ReadPosts.t) :
  postRouter.setRead db now u id = Ok (m, db') ->
  marker_count db u id = 0 ->
  ReadPosts.userId m = u
  /\ ReadPosts.postId m = id
  /\ ReadPosts.updatedAt m = now
  /\ db' = set_readPosts db (readPosts db ++ [m]).
Proof.
  unfold postRouter.setRead, ReadPosts_upsert. intros H H0.
  destruct (readPosts_by_key db id u) as [m0 | ] eqn:E.
  - exfalso. destruct (readPosts_by_key_some _ _ _ _ E) as [Hin Hk].
    apply has_key_iff in Hk. unfold marker_count in H0.
    assert (Hf : In m0 (filter (has_key id u) (readPosts db)))
      by (apply filter_In; now split).
    destruct (filter (has_key id u) (readPosts db)); [contradiction | ].
    discriminate.
  - destruct (user_by_id db u) as [usr | ] eqn:Eu; [ | discriminate].
    destruct (post_by_id db id) as [p | ]; [ | discriminate].
    injection H as <- <-.
    destruct (user_by_id_some _ _ _ Eu) as [_ Hid].
    repeat split. exact Hid.
Qed.

Lemma index_keys_snoc_plain (ks : list string) (k : string) :
  array_index k = None -> index_keys (ks ++ [k]) = index_keys ks.
Proof.
  intros Hk. induction ks as [ | k0 ks IH]; cbn.
  - now rewrite Hk.
  - now rewrite IH.
Qed.

Lemma enumeration_order_snoc_plain (ks : list string) (k : string) :
  array_index k = None ->
  enumeration_order (ks ++ [k]) = enumeration_order ks ++ [k].
Proof.
  intros Hk. unfold enumeration_order.
  rewrite (index_keys_snoc_plain ks k Hk), filter_app. cbn.
  unfold is_index. rewrite Hk. cbn. now rewrite app_assoc.
Qed.

(** X21: when [setRead] marks a post for a user who had no marker on
    it and whose identifier is not written like an array index, at a
    time after the update time of every marker on that post, the
    [readBy] mapping of the post enumerates the user's identifier
    last, behind the keys there were. *)
Theorem setRead_appends_reader :
  forall (db db' : Db) (now : Z) (sessionUserId id : string)
         (m : ReadPosts.t),
    postRouter.setRead db now sessionUserId id = Ok (m, db') ->
    marker_count db sessionUserId id = 0 ->
    array_index sessionUserId = None ->
    (forall m', In m' (readPosts db) -> ReadPosts.postId m' = id ->
                (ReadPosts.updatedAt m' < now)%Z) ->
    forall (viewerId : string) (p : Post.t),
      Post.id p = id ->
      exists front,
        own_keys (FeedbackItem.readBy (feedback_item db' viewerId p))
        = front ++ [sessionUserId]
        /\ Permutation front
             (own_keys (FeedbackItem.readBy (feedback_item db viewerId p))).
Proof.
  intros db db' now u id m H H0 Hplain Hclock v p Hid.
  destruct (setRead_created _ _ _ _ _ _ H H0) as (Hu & Hp & Ht & ->).
  exists (own_keys (FeedbackItem.readBy (feedback_item db v p))).
  split; [ | reflexivity].
  unfold own_keys. rewrite <- (enumeration_order_snoc_plain _ _ Hplain).
  f_equal. unfold feedback_item.
  cbn [processFeedbackItem FeedbackItem.readBy withCommentsPostSelect
       with_comments defaultPostSelect PostPayload.readBy].
  rewrite post_readBy_added, Hp, Hid, String.eqb_refl.
  rewrite orderBy_snoc.
  - rewrite map_app. cbn [map]. rewrite keyBy_snoc, obj_keys_set.
    change (reader_id (select_readBy m)) with (ReadPosts.userId m).
    rewrite Hu.
    destruct (mem u (obj_keys (keyBy _ reader_id))) eqn:E; [ | reflexivity].
    exfalso. apply mem_In in E.
    apply (proj1 (keyBy_keys_In reader_id _ u)) in E.
    apply in_map_iff in E. destruct E as (e & Hm' & Hin).
    apply in_map_iff in Hin. destruct Hin as (m' & <- & Hin).
    change (reader_id (select_readBy m')) with (ReadPosts.userId m') in Hm'.
    apply orderBy_In in Hin.
    apply filter_In in Hin. destruct Hin as [Hin Hpid].
    apply String.eqb_eq in Hpid. unfold marker_count in H0.
    assert (Hf : In m' (filter (has_key id u) (readPosts db))).
    { apply filter_In. split; [exact Hin | ].
      apply has_key_iff. unfold marker_key. now rewrite Hpid, <- Hid, Hm'. }
    destruct (filter (has_key id u) (readPosts db)); [contradiction | ].
    discriminate.
  - intros x Hx. apply filter_In in Hx. destruct Hx as [Hx Hpid].
    apply String.eqb_eq in Hpid. cbn. rewrite Ht. apply Z.leb_le.
    apply Z.lt_le_incl, Hclock; [exact Hx | congruence].
Qed.

Lemma setRead_appends_reader_witness :
  exists front,
    own_keys
      (FeedbackItem.readBy
         (feedback_item
            (set_readPosts example_db
               (readPosts example_db ++ [ReadPosts.mk example_author "A" 8 8]))
            "u2" (example_post "A" 1 true false)))
    = front ++ ["u1"]
    /\ Permutation front
         (own_keys
            (FeedbackItem.readBy
               (feedback_item example_db "u2"
                  (example_post "A" 1 true false)))).
Proof.
  apply (setRead_appends_reader example_db _ 8 "u1" "A"
           (ReadPosts.mk example_author "A" 8 8)).
  - reflexivity.
  - reflexivity.
  - reflexivity.
  - cbn. intros m' [<- | []] _. cbn. lia.
  - reflexivity.
Defined.

(** ** The sidebar *)

(** X20: whatever the path, the sidebar shows the items [Feedback] and
    [Settings], in this order; an item is active exactly when the path
    is the item's own link, so that one item at most is active:
    [Feedback] on ['/'], [Settings] on ['/settings'], and none on any
    other path, a path below ['/settings'] included. *)
Theorem DashSidebar_active_item :
  forall pathname : string,
    let items := sidebar_items (DashSidebar pathname) in
    map SidebarItem.label items = ["Feedback"; "Settings"]
    /\ (forall item,
           In item items ->
           (item_active item = true
            <-> SidebarItemProps.href (SidebarItem.props item) = pathname))
    /\ length (filter item_active items) <= 1
    /\ map SidebarItem.label (filter item_active items)
       = (if String.eqb pathname "/" then ["Feedback"]
          else if String.eqb pathname "/settings" then ["Settings"]
               else []).
Proof.
  intros pathname items. subst items. cbn [DashSidebar sidebar_items].
  split; [reflexivity | ]. split; [ | split].
  - intros item [<- | [<- | []]]; unfold item_active; cbn;
      rewrite String.eqb_eq; split; congruence.
  - unfold item_active. cbn.
    destruct (String.eqb pathname "/") eqn:E.
    + apply String.eqb_eq in E. subst pathname. cbn. lia.
    + destruct (String.eqb pathname "/settings"); cbn; lia.
  - unfold item_active. cbn.
    destruct (String.eqb pathname "/") eqn:E.
    + apply String.eqb_eq in E. now subst pathname.
    + now destruct (String.eqb pathname "/settings").
Qed.

(** ** The comments of a returned post *)

Lemma feedback_item_comments (db : Db) (v : string) (p : Post.t) :
  exists rows,
    FeedbackItem.comments (feedback_item db v p)
    = Some (map select_comment rows)
    /\ Permutation rows (comments_of db (Post.id p))
    /\ StronglySorted
         (fun a b => (Comment.createdAt a <= Comment.createdAt b)%Z) rows
    /\ CountPayload.comments (FeedbackItem._count (feedback_item db v p))
       = length (comments_of db (Post.id p)).
Proof.
  exists (orderBy Comment.createdAt asc (post_comments db p)).
  split; [reflexivity | ]. split; [apply orderBy_perm | ].
  split; [ | reflexivity].
  pose proof (orderBy_sorted Comment.createdAt asc (post_comments db p)) as H.
  induction H as [ | a l Hl IH Ha]; constructor; [exact IH | ].
  eapply Forall_impl; [ | exact Ha].
  intros b Hb. unfold in_order in Hb. cbn in *. lia.
Qed.

(** X22: an item that [list] or [byId] returns carries the comments of
    its post, all of them and no other: its comment list is the
    projection of the comment rows of the post, each once, in
    ascending order of their creation, and its comment count is the
    number of those rows. *)
Theorem returned_comments_are_the_posts :
  forall (db : Db) (sessionUserId : string) (item : FeedbackItem.t),
    (exists input,
        In item (ListOutput.items (postRouter.list db sessionUserId input)))
    \/ (exists id, postRouter.byId db sessionUserId id = Ok item) ->
    exists rows,
      FeedbackItem.comments item = Some (map select_comment rows)
      /\ Permutation rows (comments_of db (FeedbackItem.id item))
      /\ StronglySorted
           (fun a b => (Comment.createdAt a <= Comment.createdAt b)%Z) rows
      /\ CountPayload.comments (FeedbackItem._count item)
         = length (comments_of db (FeedbackItem.id item)).
Proof.
  intros db u item H.
  assert (Hp : exists p, item = feedback_item db u p).
  { destruct H as [(input & Hin) | (id & HbyId)].
    - apply list_items_In in Hin. destruct Hin as (p & _ & ->). now exists p.
    - unfold postRouter.byId, Post_findUnique in HbyId.
      destruct (post_by_id db id) as [p | ]; [ | discriminate].
      injection HbyId as <-. now exists p. }
  destruct Hp as (p & ->). apply (feedback_item_comments db u p).
Qed.

Lemma returned_comments_are_the_posts_witness :
  exists rows,
    FeedbackItem.comments
      (feedback_item commented_db "u2" (example_post "A" 1 true false))
    = Some (map select_comment rows)
    /\ Permutation rows (comments_of commented_db "A")
    /\ CountPayload.comments
         (FeedbackItem._count
            (feedback_item commented_db "u2" (example_post "A" 1 true false)))
       = 2.
Proof.
  destruct (returned_comments_are_the_posts commented_db "u2"
              (feedback_item commented_db "u2" (example_post "A" 1 true false)))
    as (rows & Hcs & Hperm & _ & Hcount).
  - right. exists "A". reflexivity.
  - exists rows. repeat split; assumption.
Defined.
